(** * Verification of [scripts/extract-wad.py]

    A shallow embedding of the PAK/WAD2 extraction script: the outer
    archive reader [read_pak], the color table loader [read_palette], the
    nested container reader [read_wad], the indexed bitmap decoder
    [qpic_to_image] and the conversion loop of [main].

    Conventions of the embedding:
    - Python [bytes] are lists of [Byte.byte]; iterating or indexing a
      [bytes] object yields the integer 0..255 of the byte ([byte_Z]).
    - Python [int] is [Z] (unbounded, so [width * height] never wraps).
    - Python [str] is the list of its code points; a literal is written
      with [str_of].
    - A raised exception is the [Raise] branch of [result]; the spec's
      FormatError is the script's [ValueError].
    - What the script calls outside itself (the imaging and path
      libraries, [print], the file system) is a field of [Env]: a call
      returns or raises as the field says.
    - A [dict] is a [gmap]: every use in the script is by key or through
      [sorted(...)], so insertion order is never observed. *)

From Stdlib Require Import ZArith List Lia.
From Stdlib Require Import Strings.Byte Strings.String Strings.Ascii.
From stdpp Require Import base tactics option list gmap sorting.

Local Open Scope Z_scope.

(** ** Bytes, integers and strings *)

Abbreviation bytes := (list byte).
Abbreviation pystr := (list Z).

#[global] Instance byte_eq_dec : EqDecision byte := Byte.byte_eq_dec.

Definition byte_Z (b : byte) : Z := Z.of_N (Byte.to_N b).

Definition len {A} (l : list A) : Z := Z.of_nat (length l).

(** [data[lo:hi]] for non-negative [lo] and [hi] (every slice of the
    script has bounds built from unsigned fields): the elements at
    positions [lo <= i < min hi (len data)]. *)
Definition slice {A} (data : list A) (lo hi : Z) : list A :=
  take (Z.to_nat (hi - lo)) (drop (Z.to_nat lo) data).

Definition str_of (s : string) : pystr :=
  map (fun a => Z.of_N (N_of_ascii a)) (list_ascii_of_string s).

Definition bytes_of (s : string) : bytes :=
  map byte_of_ascii (list_ascii_of_string s).

(** ** Exceptions *)

Inductive value_error :=
| NotAPak
| PaletteTooSmall (n : Z)
| NotAWad2 (magic : bytes)
| QpicTruncated (have want : Z)
| NotEnoughValues.

(** [OSError] stands for its subclasses too ([FileExistsError],
    [FileNotFoundError], ...), told apart by [errno]. *)
Inductive exn :=
| ValueError (why : value_error)
| StructError
| IndexError
| OverflowError
| MemoryError
| UnicodeEncodeError
| OSError (errno : Z).

Inductive result (A : Type) :=
| Ok (a : A)
| Raise (e : exn).
Arguments Ok {A} a.
Arguments Raise {A} e.

#[global] Instance result_ret : MRet result := fun _ a => Ok a.
#[global] Instance result_bind : MBind result := fun _ _ f m =>
  match m with
  | Ok a => f a
  | Raise e => Raise e
  end.

(** [for x in xs: s = body(x, s)], stopping at the first exception. *)
Fixpoint for_each {A S} (xs : list A) (body : A -> S -> result S) (s : S)
  : result S :=
  match xs with
  | [] => Ok s
  | x :: xs' => s' ← body x s; for_each xs' body s'
  end.

(** [[f(x) for x in xs]], stopping at the first exception. *)
Fixpoint list_comp {A B} (f : A -> result B) (xs : list A) : result (list B) :=
  match xs with
  | [] => Ok []
  | x :: xs' => y ← f x; ys ← list_comp f xs'; Ok (y :: ys)
  end.

(** ** [struct] *)

Definition u32_le (b0 b1 b2 b3 : byte) : Z :=
  byte_Z b0 + 256 * byte_Z b1 + 65536 * byte_Z b2 + 16777216 * byte_Z b3.

Definition u8 (b : byte) : Z := byte_Z b.

Definition i8 (b : byte) : Z :=
  if byte_Z b <? 128 then byte_Z b else byte_Z b - 256.

(** [struct.unpack("<II", buf)]: [buf] must be exactly 8 bytes. *)
Definition unpack_II (buf : bytes) : result (Z * Z) :=
  match buf with
  | [a0; a1; a2; a3; b0; b1; b2; b3] =>
      Ok (u32_le a0 a1 a2 a3, u32_le b0 b1 b2 b3)
  | _ => Raise StructError
  end.

(** [struct.unpack_from("<II", data, off)]: needs 8 bytes from [off]. *)
Definition unpack_from_II (data : bytes) (off : Z) : result (Z * Z) :=
  unpack_II (slice data off (off + 8)).

(** [struct.unpack_from("<IIIBb", data, off)]: needs 14 bytes from [off];
    [B] is an unsigned and [b] a signed 8-bit integer. *)
Definition unpack_from_IIIBb (data : bytes) (off : Z)
  : result (Z * Z * Z * Z * Z) :=
  match slice data off (off + 14) with
  | [a0; a1; a2; a3; b0; b1; b2; b3; c0; c1; c2; c3; t; c] =>
      Ok (u32_le a0 a1 a2 a3, u32_le b0 b1 b2 b3, u32_le c0 c1 c2 c3,
          u8 t, i8 c)
  | _ => Raise StructError
  end.

(** ** Names *)

(** [raw.split(b"\x00", 1)[0]]: the bytes before the first NUL. *)
Fixpoint before_nul (raw : bytes) : bytes :=
  match raw with
  | [] => []
  | b :: raw' => if decide (b = x00) then [] else b :: before_nul raw'
  end.

(** [.decode("ascii", errors="replace")]: a byte above 0x7f becomes
    U+FFFD. *)
Definition decode_char (b : byte) : Z :=
  if byte_Z b <? 128 then byte_Z b else 65533.

Definition decode_ascii (raw : bytes) : pystr := map decode_char raw.

(** [str.lower()] on the code points [decode_ascii] produces: only A-Z
    change (U+FFFD has no lowercase mapping). *)
Definition lower_char (c : Z) : Z :=
  if (65 <=? c) && (c <=? 90) then c + 32 else c.

Definition lower (s : pystr) : pystr := map lower_char s.

Definition decode_name (raw : bytes) : pystr :=
  decode_ascii (before_nul raw).

(** ** [read_pak] *)

(** The open file: its contents are fixed, the state is the position. *)
Definition fileM (A : Type) : Type := Z -> result (A * Z).

#[global] Instance fileM_ret : MRet fileM := fun _ a pos => Ok (a, pos).
#[global] Instance fileM_bind : MBind fileM := fun _ _ f m pos =>
  match m pos with
  | Ok (a, pos') => f a pos'
  | Raise e => Raise e
  end.

Definition f_raise {A} (e : exn) : fileM A := fun _ => Raise e.

Definition f_lift {A} (r : result A) : fileM A := fun pos =>
  match r with
  | Ok a => Ok (a, pos)
  | Raise e => Raise e
  end.

Section File.
Variable contents : bytes.

(** [f.read(n)]: up to [n] bytes from the position, which advances by
    the number of bytes read. *)
Definition f_read (n : Z) : fileM bytes := fun pos =>
  let buf := slice contents pos (pos + n) in
  Ok (buf, pos + len buf).

Definition f_seek (off : Z) : fileM unit := fun _ => Ok (tt, off).

Definition f_tell : fileM Z := fun pos => Ok (pos, pos).

Definition read_pak_entry (entries : gmap pystr bytes)
  : fileM (gmap pystr bytes) :=
  name_raw ← f_read 56;
  buf ← f_read 8;
  '(offset, size) ← f_lift (unpack_II buf);
  let name := decode_name name_raw in
  pos ← f_tell;
  f_seek offset;;
  payload ← f_read size;
  f_seek pos;;
  mret (<[lower name := payload]> entries).

Fixpoint read_pak_loop (n : nat) (entries : gmap pystr bytes)
  : fileM (gmap pystr bytes) :=
  match n with
  | O => mret entries
  | S n' => entries' ← read_pak_entry entries; read_pak_loop n' entries'
  end.

Definition read_pak_body : fileM (gmap pystr bytes) :=
  magic ← f_read 4;
  if decide (magic ≠ bytes_of "PACK") then f_raise (ValueError NotAPak)
  else
    buf ← f_read 8;
    '(dir_offset, dir_size) ← f_lift (unpack_II buf);
    let num_entries := dir_size / 64 in
    f_seek dir_offset;;
    read_pak_loop (Z.to_nat num_entries) ∅.
End File.

Definition read_pak (file : bytes) : result (gmap pystr bytes) :=
  match read_pak_body file 0 with
  | Ok (entries, _) => Ok entries
  | Raise e => Raise e
  end.

(** ** [read_palette] *)

Abbreviation rgba := (Z * Z * Z * Z)%type.

(** The body of the loop over [range(256)]. *)
Definition read_palette_step (data : bytes) (i : Z) (palette : list rgba)
  : result (list rgba) :=
  match slice data (i * 3) (i * 3 + 3) with
  | [r; g; b] =>
      let a := if decide (i = 255) then 0 else 255 in
      Ok (palette ++ [(byte_Z r, byte_Z g, byte_Z b, a)])
  | _ => Raise (ValueError NotEnoughValues)
  end.

Definition read_palette (data : bytes) : result (list rgba) :=
  if len data <? 768 then Raise (ValueError (PaletteTooSmall (len data)))
  else for_each (seqZ 0 256) (read_palette_step data) [].

(** ** [read_wad] *)

(** The body of the loop over [range(num_lumps)]. *)
Definition read_wad_step (data : bytes) (dir_offset : Z) (i : Z)
    (lumps : gmap pystr (Z * bytes)) : result (gmap pystr (Z * bytes)) :=
  let entry_offset := dir_offset + i * 32 in
  '(lump_offset, disk_size, full_size, lump_type, compression) ←
    unpack_from_IIIBb data entry_offset;
  let name_raw := slice data (entry_offset + 16) (entry_offset + 32) in
  let name := lower (decode_name name_raw) in
  let lump_data := slice data lump_offset (lump_offset + disk_size) in
  Ok (<[name := (lump_type, lump_data)]> lumps).

Definition read_wad (data : bytes) : result (gmap pystr (Z * bytes)) :=
  let magic := slice data 0 4 in
  if decide (magic ≠ bytes_of "WAD2") then Raise (ValueError (NotAWad2 magic))
  else
    '(num_lumps, dir_offset) ← unpack_from_II data 4;
    for_each (seqZ 0 num_lumps) (read_wad_step data dir_offset) ∅.

(** The image object of the imaging library, as far as the script uses
    it: its size and its pixels in row-major order. *)
Record Image := { img_width : Z; img_height : Z; img_pixels : list rgba }.

(** ** The world outside the script *)

(** The lines the script prints, by their variable parts. *)
Inductive message :=
| Usage (prog : pystr)
| Reading (pak_path : pystr)
| PakEntries (n : Z)
| NotFound (key : pystr)
| PaletteLoaded
| WadLumps (n : Z)
| Converted (name : pystr) (width height : Z) (out_path : pystr)
| Failed (name : pystr) (e : exn)
| Summary (count : Z) (output_dir : pystr) (skipped : Z).

(** What the script calls and does not define.  Each call is a function
    of its arguments: the same call has the same result throughout a run
    and from one run to the next.
    - [out_of_memory w h]: the imaging library cannot allocate an RGBA
      image of [w] by [h] pixels, or refuses its line size.
    - [path_join d n] is pathlib's [d / n].
    - [save img path] is [img.save(path)]: it writes the encoded bytes
      of [img] to the file at [path], or raises and leaves the files as
      they were; whether it raises is taken not to depend on the files
      present.
    - [print m] is [None] when the line is written and the exception
      [print] raises otherwise (a text the stream cannot encode, a closed
      stream).
    - [mkdir d fs] is [d.mkdir(parents=True, exist_ok=True)] with the
      files [fs] present: [None], or the exception raised (a regular
      file at [d], a parent that cannot be written).
    - [open_rb path fs] is the contents [open(path, "rb")] gives to
      [read], or the exception of [open]. *)
Record Env := {
  out_of_memory : Z -> Z -> bool;
  path_join : pystr -> pystr -> pystr;
  save : Image -> pystr -> result bytes;
  print : message -> option exn;
  mkdir : pystr -> gmap pystr bytes -> option exn;
  open_rb : pystr -> gmap pystr bytes -> result bytes
}.

(** ** [qpic_to_image] *)

(** The largest C [int]: the imaging library takes the size of an image
    as two of them. *)
Definition INT_MAX : Z := 2147483647.

(** [Image.new("RGBA", (width, height))] for non-negative [width] and
    [height]: an image of transparent black.  A dimension that does not
    fit a C [int] raises [OverflowError] when the arguments are
    converted; an image that cannot be allocated raises [MemoryError]. *)
Definition Image_new (env : Env) (width height : Z) : result Image :=
  if decide (INT_MAX < width \/ INT_MAX < height) then Raise OverflowError
  else if out_of_memory env width height then Raise MemoryError
  else
    Ok {| img_width := width; img_height := height;
          img_pixels := replicate (Z.to_nat (width * height)) (0, 0, 0, 0) |}.

(** [img.putdata(data)] copies a sequence over the pixels from the upper
    left corner. *)
Definition putdata (img : Image) (data : list rgba) : Image :=
  {| img_width := img_width img; img_height := img_height img;
     img_pixels := take (length (img_pixels img))
                     (data ++ drop (length data) (img_pixels img)) |}.

(** [img.getpixel((x, y))]: the pixels are stored row by row. *)
Definition getpixel (img : Image) (x y : Z) : option rgba :=
  img_pixels img !! Z.to_nat (y * img_width img + x).

(** [palette[b]] for [b] in 0..255. *)
Definition palette_get (palette : list rgba) (b : byte) : result rgba :=
  match palette !! Z.to_nat (byte_Z b) with
  | Some c => Ok c
  | None => Raise IndexError
  end.

Definition qpic_to_image (env : Env) (data : bytes) (palette : list rgba)
  : result Image :=
  '(width, height) ← unpack_from_II data 0;
  let pixels := slice data 8 (8 + width * height) in
  if len pixels <? width * height
  then Raise (ValueError (QpicTruncated (len pixels) (width * height)))
  else
    img ← Image_new env width height;
    img_data ← list_comp (palette_get palette) pixels;
    Ok (putdata img img_data).

Definition TYP_QPIC : Z := 0x42.

(** ** [main] *)

(** Python compares [str] values by code point, a proper prefix first. *)
Fixpoint str_leb (s t : pystr) : bool :=
  match s, t with
  | [], _ => true
  | _ :: _, [] => false
  | a :: s', b :: t' =>
      if a <? b then true else if a =? b then str_leb s' t' else false
  end.

Definition str_le (s t : pystr) : Prop := str_leb s t = true.

(** The order [sorted] uses on the items of a dict: tuples compare by
    their first component, and the names of a dict's items are distinct,
    so the second component is never compared. *)
Definition item_le {V} (a b : pystr * V) : Prop := str_le a.1 b.1.

#[global] Instance item_le_dec {V} (a b : pystr * V) : Decision (item_le a b) :=
  bool_eq_dec (str_leb a.1 b.1) true.

(** [sorted(lumps.items())] *)
Definition sorted_items {V} (lumps : gmap pystr V) : list (pystr * V) :=
  merge_sort item_le (map_to_list lumps).

Record progress := {
  count : Z;
  skipped : Z;
  files : gmap pystr bytes
}.

(** How a run ends: [sys.exit(code)], an exception raised before the
    conversion loop (no file has been touched), an exception that leaves
    the loop or the summary line after it (with the counts and files at
    that point), or the end of [main]. *)
Inductive outcome :=
| Exit (code : Z)
| Uncaught (e : exn)
| Aborted (e : exn) (st : progress)
| Done (st : progress).

(** [print(m)] and then [k], unless [print] raises. *)
Definition print_then (env : Env) (m : message) (k : outcome) : outcome :=
  match print env m with
  | Some e => Uncaught e
  | None => k
  end.

(** The value of [r] passed to [k], unless [r] raises. *)
Definition or_raise {A} (r : result A) (k : A -> outcome) : outcome :=
  match r with
  | Ok a => k a
  | Raise e => Uncaught e
  end.

Definition skip_lump (st : progress) : progress :=
  {| count := count st; skipped := skipped st + 1; files := files st |}.

(** The [try] block of the loop body: the state it leaves and the
    exception it raises, if any.  The line is printed after the file is
    saved and counted. *)
Definition try_convert (env : Env) (output_dir : pystr) (palette : list rgba)
    (st : progress) (name : pystr) (data : bytes) : progress * option exn :=
  match qpic_to_image env data palette with
  | Ok img =>
      let out_path := path_join env output_dir (name ++ str_of ".png") in
      match save env img out_path with
      | Ok png =>
          ({| count := count st + 1; skipped := skipped st;
              files := <[out_path := png]> (files st) |},
           print env (Converted name (img_width img) (img_height img) out_path))
      | Raise e => (st, Some e)
      end
  | Raise e => (st, Some e)
  end.

(** One iteration of the conversion loop: the state after it, and the
    exception that leaves it when the line of the [except] block cannot
    be printed. *)
Definition convert_lump (env : Env) (output_dir : pystr) (palette : list rgba)
    (st : progress) (item : pystr * (Z * bytes)) : progress * option exn :=
  let '(name, (lump_type, data)) := item in
  if decide (lump_type ≠ TYP_QPIC) then (skip_lump st, None)
  else
    match try_convert env output_dir palette st name data with
    | (st', None) => (st', None)
    | (st', Some e) =>
        match print env (Failed name e) with
        | None => (skip_lump st', None)
        | Some e' => (st', Some e')
        end
    end.

(** The loop over [items], ended by the first exception that leaves an
    iteration. *)
Fixpoint convert_items (env : Env) (output_dir : pystr) (palette : list rgba)
    (items : list (pystr * (Z * bytes))) (st : progress)
  : progress * option exn :=
  match items with
  | [] => (st, None)
  | item :: rest =>
      match convert_lump env output_dir palette st item with
      | (st', None) => convert_items env output_dir palette rest st'
      | (st', Some e) => (st', Some e)
      end
  end.

(** [for name, (lump_type, data) in sorted(lumps.items())] from
    [count = 0], [skipped = 0] and the files [fs]. *)
Definition convert_lumps (env : Env) (output_dir : pystr) (palette : list rgba)
    (lumps : gmap pystr (Z * bytes)) (fs : gmap pystr bytes)
  : progress * option exn :=
  convert_items env output_dir palette (sorted_items lumps)
    {| count := 0; skipped := 0; files := fs |}.

(** The end of [main] after the loop: the summary line. *)
Definition summarize (env : Env) (output_dir : pystr)
    (r : progress * option exn) : outcome :=
  match r with
  | (st, Some e) => Aborted e st
  | (st, None) =>
      match print env (Summary (count st) output_dir (skipped st)) with
      | Some e => Aborted e st
      | None => Done st
      end
  end.

(** [main] with [sys.argv = argv] and the files [fs] present. *)
Definition main (env : Env) (argv : list pystr) (fs : gmap pystr bytes)
  : outcome :=
  match argv with
  | [] => Uncaught IndexError
  | [prog] => print_then env (Usage prog) (Exit 1)
  | prog :: pak_path :: rest =>
      let output_dir := default (str_of "ui/img/sbar") (head rest) in
      print_then env (Reading pak_path) $
      or_raise (pak ← open_rb env pak_path fs; read_pak pak) $ fun pak_entries =>
      print_then env (PakEntries (Z.of_nat (size pak_entries))) $
      let palette_key := str_of "gfx/palette.lmp" in
      match pak_entries !! palette_key with
      | None => print_then env (NotFound palette_key) (Exit 1)
      | Some palette_data =>
      or_raise (read_palette palette_data) $ fun palette =>
      print_then env PaletteLoaded $
      let wad_key := str_of "gfx.wad" in
      match pak_entries !! wad_key with
      | None => print_then env (NotFound wad_key) (Exit 1)
      | Some wad_data =>
      or_raise (read_wad wad_data) $ fun lumps =>
      print_then env (WadLumps (Z.of_nat (size lumps))) $
      match mkdir env output_dir fs with
      | Some e => Uncaught e
      | None =>
          summarize env output_dir
            (convert_lumps env output_dir palette lumps fs)
      end
      end
      end
  end.

(** ** The formats as byte layouts

    The fields of the headers and directory records by position, for
    the statements about the readers. *)

#[global] Instance byte_inhabited : Inhabited byte := populate x00.

(** [data[i]] for [0 <= i < len data]. *)
Definition byte_at (data : bytes) (i : Z) : byte := data !!! Z.to_nat i.

(** The little-endian unsigned 32-bit integer at [off]. *)
Definition u32_at (data : bytes) (off : Z) : Z :=
  u32_le (byte_at data off) (byte_at data (off + 1))
         (byte_at data (off + 2)) (byte_at data (off + 3)).

(** The dict built by assigning the pairs in order: a later pair with
    the same key replaces an earlier one. *)
Definition dict_of {V} (kvs : list (pystr * V)) : gmap pystr V :=
  foldl (fun m kv => <[kv.1 := kv.2]> m) ∅ kvs.

(** Entry [i] of the color table made from [data]. *)
Definition palette_entry (data : bytes) (i : Z) : rgba :=
  (byte_Z (byte_at data (3 * i)), byte_Z (byte_at data (3 * i + 1)),
   byte_Z (byte_at data (3 * i + 2)), if decide (i = 255) then 0 else 255).

Module Pak.
Definition dir_offset (file : bytes) : Z := u32_at file 4.
Definition dir_size (file : bytes) : Z := u32_at file 8.
Definition num_entries (file : bytes) : Z := dir_size file / 64.

(** Position of directory record [i]. *)
Definition record (file : bytes) (i : Z) : Z := dir_offset file + 64 * i.

Definition name (file : bytes) (i : Z) : pystr :=
  lower (decode_name (slice file (record file i) (record file i + 56))).
Definition offset (file : bytes) (i : Z) : Z := u32_at file (record file i + 56).
Definition size (file : bytes) (i : Z) : Z := u32_at file (record file i + 60).

(** The bytes of the file from [offset] on, [size] of them or as many
    as the file has. *)
Definition payload (file : bytes) (i : Z) : bytes :=
  slice file (offset file i) (offset file i + size file i).

Definition entry (file : bytes) (i : Z) : pystr * bytes :=
  (name file i, payload file i).
End Pak.

Module Wad.
Definition num_lumps (data : bytes) : Z := u32_at data 4.
Definition dir_offset (data : bytes) : Z := u32_at data 8.

(** Position of directory record [i]. *)
Definition record (data : bytes) (i : Z) : Z := dir_offset data + i * 32.

Definition lump_offset (data : bytes) (i : Z) : Z := u32_at data (record data i).
Definition disk_size (data : bytes) (i : Z) : Z := u32_at data (record data i + 4).
Definition type_byte (data : bytes) (i : Z) : byte := byte_at data (record data i + 12).
Definition compression_byte (data : bytes) (i : Z) : byte :=
  byte_at data (record data i + 13).
Definition name (data : bytes) (i : Z) : pystr :=
  lower (decode_name (slice data (record data i + 16) (record data i + 32))).
Definition payload (data : bytes) (i : Z) : bytes :=
  slice data (lump_offset data i) (lump_offset data i + disk_size data i).

Definition entry (data : bytes) (i : Z) : pystr * (Z * bytes) :=
  (name data i, (u8 (type_byte data i), payload data i)).
End Wad.

(** The file one record of the nested container yields, if any: the path
    and contents [convert_lump] writes for it. *)
Definition lump_output (env : Env) (output_dir : pystr) (palette : list rgba)
    (item : pystr * (Z * bytes)) : option (pystr * bytes) :=
  let '(name, (lump_type, data)) := item in
  if decide (lump_type = TYP_QPIC) then
    match qpic_to_image env data palette with
    | Ok img =>
        let out_path := path_join env output_dir (name ++ str_of ".png") in
        match save env img out_path with
        | Ok png => Some (out_path, png)
        | Raise _ => None
        end
    | Raise _ => None
    end
  else None.

(** The files written for a list of records, in order. *)
Definition lump_outputs (env : Env) (output_dir : pystr) (palette : list rgba)
    (items : list (pystr * (Z * bytes))) : list (pystr * bytes) :=
  omap (lump_output env output_dir palette) items.

(** The line the loop prints first for a record: none for a record of
    another type, the line of the [try] block when the record is decoded
    and saved, the line of the [except] block when either fails. *)
Definition lump_line (env : Env) (output_dir : pystr) (palette : list rgba)
    (item : pystr * (Z * bytes)) : option message :=
  let '(name, (lump_type, data)) := item in
  if decide (lump_type = TYP_QPIC) then
    match qpic_to_image env data palette with
    | Ok img =>
        let out_path := path_join env output_dir (name ++ str_of ".png") in
        match save env img out_path with
        | Ok _ =>
            Some (Converted name (img_width img) (img_height img) out_path)
        | Raise e => Some (Failed name e)
        end
    | Raise e => Some (Failed name e)
    end
  else None.

(** Every line the loop prints first for one of [items] can be
    printed. *)
Definition lines_printed (env : Env) (output_dir : pystr)
    (palette : list rgba) (items : list (pystr * (Z * bytes))) : Prop :=
  forall item m,
    item ∈ items -> lump_line env output_dir palette item = Some m ->
    print env m = None.

(** A record that is saved and whose line cannot be printed. *)
Definition saved_unreported (env : Env) (output_dir : pystr)
    (palette : list rgba) (item : pystr * (Z * bytes)) : bool :=
  match lump_output env output_dir palette item,
        lump_line env output_dir palette item with
  | Some _, Some m => bool_decide (is_Some (print env m))
  | _, _ => false
  end.




(** ** Sample inputs *)

(** A color table whose entry 0 is opaque red and whose entry 255 is
    transparent. *)
Definition sample_palette : list rgba :=
  (255, 0, 0, 255) :: replicate 254 (7, 7, 7, 255) ++ [(0, 0, 0, 0)].

(** A 2x1 bitmap record with indices 0 and 255. *)
Definition sample_qpic : bytes :=
  [x02; x00; x00; x00; x01; x00; x00; x00; x00; xff].

(** A bitmap record declaring 2x2 pixels and holding only one. *)
Definition truncated_qpic : bytes :=
  [x02; x00; x00; x00; x02; x00; x00; x00; x05].

(** A nested container with one record named "a" whose type byte and
    compression byte are both 0x80. *)
Definition high_type_wad : bytes :=
  bytes_of "WAD2" ++ [x01; x00; x00; x00; x0c; x00; x00; x00]
  ++ [x00; x00; x00; x00; x00; x00; x00; x00; x00; x00; x00; x00;
      x80; x80; x00; x00]
  ++ bytes_of "a" ++ replicate 15 x00.

(** A nested container of 44 bytes with one bitmap-typed record named
    "pic" that declares 100 payload bytes at offset 40. *)
Definition overlong_wad : bytes :=
  bytes_of "WAD2" ++ [x01; x00; x00; x00; x0c; x00; x00; x00]
  ++ [x28; x00; x00; x00; x64; x00; x00; x00; x64; x00; x00; x00;
      x42; x00; x00; x00]
  ++ bytes_of "PIC" ++ replicate 13 x00.

(** An outer archive of 76 bytes with one directory record, named
    "A", that declares 9 payload bytes at offset 70. *)
Definition overlong_pak : bytes :=
  bytes_of "PACK" ++ [x0c; x00; x00; x00; x40; x00; x00; x00]
  ++ bytes_of "A" ++ replicate 55 x00
  ++ [x46; x00; x00; x00; x09; x00; x00; x00].

(** An outer archive whose header declares a directory of 65 bytes: one
    record, named "A" with the 3 payload bytes at offset 1, and one more
    byte. *)
Definition odd_dir_pak : bytes :=
  bytes_of "PACK" ++ [x0c; x00; x00; x00; x41; x00; x00; x00]
  ++ bytes_of "A" ++ replicate 55 x00
  ++ [x01; x00; x00; x00; x03; x00; x00; x00]
  ++ [xee].

(** *** Builders of sample archives *)

Definition byte_of_Z (z : Z) : byte :=
  default x00 (Byte.of_N (Z.to_N (z mod 256))).

Definition pack_u32 (z : Z) : bytes :=
  [byte_of_Z z; byte_of_Z (z / 256); byte_of_Z (z / 65536);
   byte_of_Z (z / 16777216)].

Definition pad_name (n : nat) (name : string) : bytes :=
  take n (bytes_of name ++ replicate n x00).

(** The payloads and the directory of a nested container whose first
    payload is at [off]. *)
Fixpoint wad_parts (off : Z) (lumps : list (string * Z * bytes))
  : bytes * bytes :=
  match lumps with
  | [] => ([], [])
  | (name, lump_type, payload) :: rest =>
      let '(payloads, dir) := wad_parts (off + len payload) rest in
      (payload ++ payloads,
       pack_u32 off ++ pack_u32 (len payload) ++ pack_u32 (len payload)
       ++ [byte_of_Z lump_type; x00; x00; x00] ++ pad_name 16 name ++ dir)
  end.

Definition make_wad (lumps : list (string * Z * bytes)) : bytes :=
  let '(payloads, dir) := wad_parts 12 lumps in
  bytes_of "WAD2" ++ pack_u32 (len lumps) ++ pack_u32 (12 + len payloads)
  ++ payloads ++ dir.

Fixpoint pak_parts (off : Z) (entries : list (string * bytes))
  : bytes * bytes :=
  match entries with
  | [] => ([], [])
  | (name, payload) :: rest =>
      let '(payloads, dir) := pak_parts (off + len payload) rest in
      (payload ++ payloads,
       pad_name 56 name ++ pack_u32 off ++ pack_u32 (len payload) ++ dir)
  end.

Definition make_pak (entries : list (string * bytes)) : bytes :=
  let '(payloads, dir) := pak_parts 12 entries in
  bytes_of "PACK" ++ pack_u32 (12 + len payloads) ++ pack_u32 (len dir)
  ++ payloads ++ dir.

(** Three bitmap records and two records of other types. *)
Definition sample_wad : bytes :=
  make_wad [("SBAR"%string, 0x42, sample_qpic);
            ("CONCHARS"%string, 0x44, [x01; x02; x03]);
            ("NUM_0"%string, 0x42,
               [x01; x00; x00; x00; x01; x00; x00; x00; x09]);
            ("COLORMAP"%string, 0x40, []);
            ("FACE1"%string, 0x42,
               [x01; x00; x00; x00; x02; x00; x00; x00; x03; x04])].

(** The same with a truncated bitmap record among them. *)
Definition faulty_wad : bytes :=
  make_wad [("SBAR"%string, 0x42, sample_qpic);
            ("CONCHARS"%string, 0x44, [x01; x02; x03]);
            ("NUM_0"%string, 0x42,
               [x01; x00; x00; x00; x01; x00; x00; x00; x09]);
            ("BROKEN"%string, 0x42, truncated_qpic);
            ("COLORMAP"%string, 0x40, []);
            ("FACE1"%string, 0x42,
               [x01; x00; x00; x00; x02; x00; x00; x00; x03; x04])].

Definition sample_palette_lmp : bytes :=
  [xff; x00; x00] ++ replicate 765 x07.

Definition sample_pak : bytes :=
  make_pak [("gfx/palette.lmp"%string, sample_palette_lmp);
            ("gfx.wad"%string, sample_wad)].

Definition faulty_pak : bytes :=
  make_pak [("gfx/palette.lmp"%string, sample_palette_lmp);
            ("gfx.wad"%string, faulty_wad)].

(** A nested container with a bitmap record and a truncated bitmap
    record whose name is the byte 0xe9, and the archive that holds
    it. *)
Definition garbled_wad : bytes :=
  make_wad [("SBAR"%string, 0x42, sample_qpic);
            (String (ascii_of_nat 233) EmptyString, 0x42, truncated_qpic)].

Definition garbled_pak : bytes :=
  make_pak [("gfx/palette.lmp"%string, sample_palette_lmp);
            ("gfx.wad"%string, garbled_wad)].

(** A bitmap record that declares a width of 2^31 and a height of 0,
    and so no pixels. *)
Definition huge_qpic : bytes :=
  [x00; x00; x00; x80; x00; x00; x00; x00].

(** Stand-ins for what the script calls: paths joined with a slash; an
    encoder that writes the size and the pixels and refuses an empty
    image; a directory that cannot be made where a regular file is; a
    file that opens when it is there; an imaging library that allocates
    any image whose lines fit a C [int]; a stream that takes every
    line. *)
Definition sample_path_join (dir name : pystr) : pystr :=
  dir ++ str_of "/" ++ name.

Definition sample_save (img : Image) (path : pystr) : result bytes :=
  match img_pixels img with
  | [] => Raise (OSError 22)
  | pixels =>
      Ok (pack_u32 (img_width img) ++ pack_u32 (img_height img)
          ++ concat (map (fun '(r, g, b, a) =>
               [byte_of_Z r; byte_of_Z g; byte_of_Z b; byte_of_Z a]) pixels))
  end.

Definition sample_mkdir (dir : pystr) (fs : gmap pystr bytes) : option exn :=
  match fs !! dir with
  | Some _ => Some (OSError 17)
  | None => None
  end.

Definition sample_open (path : pystr) (fs : gmap pystr bytes) : result bytes :=
  match fs !! path with
  | Some contents => Ok contents
  | None => Raise (OSError 2)
  end.

Definition sample_env : Env := {|
  out_of_memory := fun width height => bool_decide (INT_MAX / 4 - 1 < width);
  path_join := sample_path_join;
  save := sample_save;
  print := fun _ => None;
  mkdir := sample_mkdir;
  open_rb := sample_open
|}.

(** A stream that encodes ASCII only: a line with another code point in
    a name or a path raises [UnicodeEncodeError]. *)
Definition ascii (s : pystr) : bool := forallb (fun c => c <? 128) s.

Definition ascii_print (m : message) : option exn :=
  let encodable :=
    match m with
    | Usage s | Reading s | NotFound s => ascii s
    | Converted name _ _ out_path => ascii name && ascii out_path
    | Failed name _ => ascii name
    | Summary _ output_dir _ => ascii output_dir
    | PakEntries _ | PaletteLoaded | WadLumps _ => true
    end in
  if encodable then None else Some UnicodeEncodeError.

Definition ascii_env : Env := {|
  out_of_memory := out_of_memory sample_env;
  path_join := sample_path_join;
  save := sample_save;
  print := ascii_print;
  mkdir := sample_mkdir;
  open_rb := sample_open
|}.

(** The parsed records of [sample_wad]. *)
Definition sample_lumps : gmap pystr (Z * bytes) :=
  dict_of (Wad.entry sample_wad <$> seqZ 0 (Wad.num_lumps sample_wad)).

(** The command line and the files of the sample runs: the archive is
    the only file present. *)
Definition sample_argv : list pystr :=
  [str_of "extract-wad.py"; str_of "pak0.pak"; str_of "out"].

Definition sample_files : gmap pystr bytes :=
  {[ str_of "pak0.pak" := sample_pak ]}.

(** The counts and the number of files of a finished run. *)
Definition summary (o : outcome) : option (Z * Z * nat) :=
  match o with
  | Done st => Some (count st, skipped st, size (files st))
  | _ => None
  end.


(** An outer archive with a directory of 63 bytes at an offset far past
    its end. *)
Definition empty_dir_pak : bytes :=
  bytes_of "PACK" ++ [xff; xff; xff; xff; x3f; x00; x00; x00].

(** A nested container with no records and a directory offset far past
    its end. *)
Definition no_lumps_wad : bytes :=
  bytes_of "WAD2" ++ [x00; x00; x00; x00; xff; xff; xff; xff].

(** The color table [read_palette] makes of [sample_palette_lmp]. *)
Definition sample_table : list rgba :=
  palette_entry sample_palette_lmp <$> seqZ 0 256.

(** An outer archive that holds a color table and no nested container. *)
Definition no_wad_pak : bytes :=
  make_pak [("gfx/palette.lmp"%string, sample_palette_lmp)].

(** * [Shaders/pipeline.py] *)

(** The loop over [sys.argv[1:]], with [commands] and [current] as the
    script keeps them. *)
Fixpoint split_args (args : list pystr) (commands : list (list pystr))
    (current : list pystr) : list (list pystr) * list pystr :=
  match args with
  | [] => (commands, current)
  | arg :: args' =>
      if decide (arg = str_of "&&") then
        match current with
        | [] => split_args args' commands current
        | _ :: _ => split_args args' (commands ++ [current]) []
        end
      else split_args args' commands (current ++ [arg])
  end.

(** [if current: commands.append(current)] *)
Definition flush (state : list (list pystr) * list pystr)
  : list (list pystr) :=
  let '(commands, current) := state in
  match current with
  | [] => commands
  | _ :: _ => commands ++ [current]
  end.

Definition split_commands (args : list pystr) : list (list pystr) :=
  flush (split_args args [] []).

(** How a run of the script ends: by reaching its end, by [sys.exit]
    with the return code of a command, or with the exception of a
    [subprocess.run] that could not start its program. *)
Inductive exit_status :=
| Finished
| SysExit (code : Z)
| RunFailed.

Section Pipeline.
(** [subprocess.run(cmd)] in a state of the machine: the return code of
    the child process, or [None] when the call raises, and the state
    after it. *)
Context {World : Type}.
Variable subprocess_run : list pystr -> World -> option Z * World.

Fixpoint run_commands (commands : list (list pystr)) (w : World)
  : exit_status * World :=
  match commands with
  | [] => (Finished, w)
  | cmd :: rest =>
      match subprocess_run cmd w with
      | (Some returncode, w') =>
          if decide (returncode ≠ 0) then (SysExit returncode, w')
          else run_commands rest w'
      | (None, w') => (RunFailed, w')
      end
  end.

(** The script, on [sys.argv]. *)
Definition pipeline (argv : list pystr) (w : World) : exit_status * World :=
  run_commands (split_commands (drop 1 argv)) w.
End Pipeline.

(** The argument list that spells commands with [&&] between them. *)
Fixpoint join_commands (commands : list (list pystr)) : list pystr :=
  match commands with
  | [] => []
  | [cmd] => cmd
  | cmd :: rest => cmd ++ str_of "&&" :: join_commands rest
  end.

(** Stand-ins for [subprocess.run]: the state is the list of commands
    run so far, and a command returns the length of its first word minus
    one; the second one raises on an empty command. *)
Definition sample_run (cmd : list pystr) (trace : list (list pystr))
  : option Z * list (list pystr) :=
  (Some (len (default [] (head cmd)) - 1), trace ++ [cmd]).

Definition strict_run (cmd : list pystr) (trace : list (list pystr))
  : option Z * list (list pystr) :=
  match cmd with
  | [] => (None, trace)
  | _ :: _ => sample_run cmd trace
  end.

(** * Properties *)

(** ** Slices and [struct] *)

Lemma len_nonneg {A} (l : list A) : 0 <= len l.
Proof. unfold len. lia. Qed.

Lemma len_app {A} (l k : list A) : len (l ++ k) = len l + len k.
Proof. unfold len. rewrite length_app. lia. Qed.

Lemma len_cons {A} (x : A) (l : list A) : len (x :: l) = 1 + len l.
Proof. unfold len. simpl. lia. Qed.

Lemma len_slice {A} (data : list A) lo hi :
  0 <= lo ->
  len (slice data lo hi) = Z.max 0 (Z.min (hi - lo) (len data - lo)).
Proof.
  intros Hlo. unfold len, slice. rewrite length_take, length_drop. lia.
Qed.

Lemma slice_lookup {A} (data : list A) lo hi (k : nat) :
  0 <= lo -> Z.of_nat k < hi - lo ->
  slice data lo hi !! k = data !! (Z.to_nat lo + k)%nat.
Proof.
  intros Hlo Hk. unfold slice.
  rewrite lookup_take_lt by lia. apply lookup_drop.
Qed.

Lemma slice_all {A} (data : list A) hi :
  len data <= hi -> slice data 0 hi = data.
Proof.
  intros H. unfold slice, len in *. simpl. rewrite drop_0.
  apply take_ge. lia.
Qed.

Lemma slice_app_r {A} (hd tl : list A) hi :
  slice (hd ++ tl) (len hd) hi = slice tl 0 (hi - len hd).
Proof.
  unfold slice, len. rewrite Nat2Z.id, drop_app_length.
  simpl. rewrite drop_0. f_equal. lia.
Qed.

(** An in-range slice lists the elements at its positions. *)
Lemma slice_in_range `{Inhabited A} (data : list A) lo (n : nat) :
  0 <= lo -> lo + Z.of_nat n <= len data ->
  slice data lo (lo + Z.of_nat n)
  = (fun k => data !!! (Z.to_nat lo + k)%nat) <$> seq 0 n.
Proof.
  intros Hlo Hhi. unfold len in Hhi. apply list_eq. intros k.
  rewrite list_lookup_fmap.
  destruct (decide (k < n)%nat) as [Hk|Hk].
  - rewrite slice_lookup by lia. rewrite lookup_seq_lt by lia. simpl.
    apply list_lookup_lookup_total_lt. lia.
  - rewrite lookup_ge_None_2.
    + rewrite lookup_ge_None_2; [done|]. rewrite length_seq. lia.
    + unfold slice. rewrite length_take. lia.
Qed.

Lemma byte_Z_range b : 0 <= byte_Z b <= 255.
Proof.
  unfold byte_Z. pose proof (Byte.to_N_bounded b). lia.
Qed.

Lemma u32_le_range a b c d : 0 <= u32_le a b c d < 2 ^ 32.
Proof.
  unfold u32_le.
  pose proof (byte_Z_range a). pose proof (byte_Z_range b).
  pose proof (byte_Z_range c). pose proof (byte_Z_range d). lia.
Qed.

Lemma u32_at_range data off : 0 <= u32_at data off < 2 ^ 32.
Proof. apply u32_le_range. Qed.

Lemma u8_range b : 0 <= u8 b <= 255.
Proof. apply byte_Z_range. Qed.

Lemma i8_range b : -128 <= i8 b <= 127.
Proof.
  unfold i8. pose proof (byte_Z_range b).
  destruct (byte_Z b <? 128) eqn:E; lia.
Qed.

Lemma byte_at_add data off (k : nat) :
  0 <= off -> data !!! (Z.to_nat off + k)%nat = byte_at data (off + Z.of_nat k).
Proof. intros. unfold byte_at. f_equal. lia. Qed.

Lemma unpack_from_II_in_range data off :
  0 <= off -> off + 8 <= len data ->
  unpack_from_II data off = Ok (u32_at data off, u32_at data (off + 4)).
Proof.
  intros Hlo Hhi. unfold unpack_from_II.
  change (off + 8) with (off + Z.of_nat 8).
  rewrite slice_in_range by (simpl; lia). simpl.
  rewrite !byte_at_add by done. unfold u32_at.
  rewrite <- !Z.add_assoc. simpl. by rewrite Z.add_0_r.
Qed.

Lemma unpack_II_short buf :
  length buf ≠ 8%nat -> unpack_II buf = Raise StructError.
Proof.
  intros Hlen. unfold unpack_II.
  do 8 (destruct buf as [|? buf]; [done|]).
  destruct buf; [simpl in Hlen; lia | done].
Qed.

(** ** The color table loader *)

Lemma read_palette_step_in_range data i palette :
  0 <= i -> 3 * i + 3 <= len data ->
  read_palette_step data i palette = Ok (palette ++ [palette_entry data i]).
Proof.
  intros Hi Hlen. unfold read_palette_step.
  change (i * 3 + 3) with (i * 3 + Z.of_nat 3).
  rewrite slice_in_range by (simpl; lia). simpl.
  rewrite !byte_at_add by lia. unfold palette_entry.
  rewrite Z.add_0_r, (Z.mul_comm i 3). done.
Qed.

Lemma read_palette_loop data (n : nat) : forall k palette,
  0 <= k -> 3 * (k + Z.of_nat n) <= len data ->
  for_each (seqZ k (Z.of_nat n)) (read_palette_step data) palette
  = Ok (palette ++ (palette_entry data <$> seqZ k (Z.of_nat n))).
Proof.
  induction n as [|n IH]; intros k palette Hk Hlen.
  - rewrite seqZ_nil by lia. simpl. by rewrite app_nil_r.
  - rewrite seqZ_cons by lia. simpl.
    rewrite read_palette_step_in_range by lia. simpl.
    replace (Z.pred (Z.of_nat (S n))) with (Z.of_nat n) by lia.
    rewrite IH by lia. by rewrite <- app_assoc.
Qed.

Lemma read_palette_Ok data :
  768 <= len data ->
  read_palette data = Ok (palette_entry data <$> seqZ 0 256).
Proof.
  intros Hlen. unfold read_palette.
  destruct (len data <? 768) eqn:E; [lia|].
  change 256 with (Z.of_nat 256). by rewrite read_palette_loop by lia.
Qed.

(** C7. On at least 768 bytes the color table loader returns exactly 256
    entries, entry [i] being the three bytes at [3i], [3i+1], [3i+2] with
    alpha 0 for [i = 255] and 255 for every other [i]; on fewer than 768
    bytes it raises the too-small [ValueError]. *)
Theorem read_palette_correct (data : bytes) :
  (768 <= len data ->
   exists palette,
     read_palette data = Ok palette /\
     length palette = 256%nat /\
     forall i, 0 <= i < 256 ->
       palette !! Z.to_nat i
       = Some (byte_Z (byte_at data (3 * i)),
               byte_Z (byte_at data (3 * i + 1)),
               byte_Z (byte_at data (3 * i + 2)),
               if decide (i = 255) then 0 else 255)) /\
  (len data < 768 ->
   read_palette data = Raise (ValueError (PaletteTooSmall (len data)))).
Proof.
  split.
  - intros Hlen. eexists. split; [by apply read_palette_Ok|]. split.
    + by rewrite length_fmap, length_seqZ.
    + intros i Hi. rewrite list_lookup_fmap, lookup_seqZ_lt by lia.
      simpl. unfold palette_entry. by rewrite Z2Nat.id by lia.
  - intros Hlen. unfold read_palette.
    destruct (len data <? 768) eqn:E; [done|lia].
Qed.

Lemma read_palette_correct_witness :
  (exists palette,
     read_palette (replicate 768 x07) = Ok palette /\
     length palette = 256%nat /\
     forall i, 0 <= i < 256 ->
       palette !! Z.to_nat i
       = Some (byte_Z (byte_at (replicate 768 x07) (3 * i)),
               byte_Z (byte_at (replicate 768 x07) (3 * i + 1)),
               byte_Z (byte_at (replicate 768 x07) (3 * i + 2)),
               if decide (i = 255) then 0 else 255)) /\
  read_palette (replicate 767 x07)
  = Raise (ValueError (PaletteTooSmall 767)).
Proof.
  split.
  - apply (proj1 (read_palette_correct (replicate 768 x07))).
    vm_compute. discriminate.
  - apply (proj2 (read_palette_correct (replicate 767 x07))).
    vm_compute. reflexivity.
Defined.

(** ** The indexed bitmap decoder *)

Lemma list_comp_Ok {A B} (f : A -> result B) xs :
  (forall x, x ∈ xs -> exists y, f x = Ok y) ->
  exists ys, list_comp f xs = Ok ys.
Proof.
  induction xs as [|x xs IH]; intros Hf; simpl; [by eexists|].
  destruct (Hf x) as [y Hy]; [left|]. rewrite Hy. simpl.
  destruct IH as [ys Hys]; [intros; apply Hf; by right|].
  rewrite Hys. simpl. by eexists.
Qed.

Lemma list_comp_Ok_inv {A B} (f : A -> result B) xs ys :
  list_comp f xs = Ok ys -> Forall2 (fun x y => f x = Ok y) xs ys.
Proof.
  revert ys. induction xs as [|x xs IH]; intros ys; simpl.
  - intros [= <-]. constructor.
  - destruct (f x) as [y|] eqn:Hy; simpl; [|done].
    destruct (list_comp f xs) as [ys'|] eqn:Hys; simpl; [|done].
    intros [= <-]. constructor; auto.
Qed.

Lemma list_comp_Raise {A B} (f : A -> result B) xs e :
  list_comp f xs = Raise e -> exists x, x ∈ xs /\ f x = Raise e.
Proof.
  induction xs as [|x xs IH]; simpl; [done|].
  destruct (f x) as [y|e'] eqn:Hy; simpl.
  - destruct (list_comp f xs) as [ys'|] eqn:Hys; simpl; [done|].
    intros [= <-]. destruct IH as (x' & ? & ?); [done|].
    exists x'. split; [by right|done].
  - intros [= <-]. exists x. split; [left|done].
Qed.

Lemma palette_get_Ok palette b :
  length palette = 256%nat ->
  exists c, palette_get palette b = Ok c /\
            palette !! Z.to_nat (byte_Z b) = Some c.
Proof.
  intros Hlen. unfold palette_get.
  destruct (palette !! Z.to_nat (byte_Z b)) as [c|] eqn:E; [by exists c|].
  apply lookup_ge_None in E. pose proof (byte_Z_range b). lia.
Qed.

Lemma palette_get_Raise palette b e :
  palette_get palette b = Raise e -> e = IndexError.
Proof.
  unfold palette_get. destruct (palette !! _); [done|]. by intros [= <-].
Qed.

Lemma putdata_new width height data :
  length data = Z.to_nat (width * height) ->
  putdata {| img_width := width; img_height := height;
             img_pixels := replicate (Z.to_nat (width * height)) (0, 0, 0, 0) |}
    data
  = {| img_width := width; img_height := height; img_pixels := data |}.
Proof.
  intros Hlen. unfold putdata. simpl. f_equal.
  rewrite length_replicate, <- Hlen.
  rewrite drop_ge by (rewrite length_replicate; lia).
  rewrite app_nil_r. by apply take_ge.
Qed.

Lemma Image_new_Ok env width height :
  width <= INT_MAX -> height <= INT_MAX ->
  out_of_memory env width height = false ->
  Image_new env width height
  = Ok {| img_width := width; img_height := height;
          img_pixels := replicate (Z.to_nat (width * height)) (0, 0, 0, 0) |}.
Proof.
  intros Hw Hh Hmem. unfold Image_new.
  rewrite decide_False by lia. by rewrite Hmem.
Qed.

Lemma Image_new_OverflowError env width height :
  INT_MAX < width \/ INT_MAX < height ->
  Image_new env width height = Raise OverflowError.
Proof. intros Hbig. unfold Image_new. by rewrite decide_True. Qed.

Lemma Image_new_MemoryError env width height :
  width <= INT_MAX -> height <= INT_MAX ->
  out_of_memory env width height = true ->
  Image_new env width height = Raise MemoryError.
Proof.
  intros Hw Hh Hmem. unfold Image_new.
  rewrite decide_False by lia. by rewrite Hmem.
Qed.

(** [Image.new] raises nothing but these two. *)
Lemma Image_new_Raise env width height e :
  Image_new env width height = Raise e ->
  e = OverflowError \/ e = MemoryError.
Proof.
  unfold Image_new. case_decide; [intros [= <-]; by left|].
  destruct (out_of_memory _ _ _); [intros [= <-]; by right|done].
Qed.

Lemma qpic_header data :
  8 <= len data ->
  unpack_from_II data 0 = Ok (u32_at data 0, u32_at data 4).
Proof. intros Hlen. by rewrite unpack_from_II_in_range by lia. Qed.

(** The decoder once the dimension header is read. *)
Lemma qpic_to_image_unfold env data palette :
  8 <= len data ->
  let width := u32_at data 0 in
  let height := u32_at data 4 in
  let pixels := slice data 8 (8 + width * height) in
  qpic_to_image env data palette
  = if len pixels <? width * height
    then Raise (ValueError (QpicTruncated (len pixels) (width * height)))
    else img ← Image_new env width height;
         img_data ← list_comp (palette_get palette) pixels;
         Ok (putdata img img_data).
Proof.
  intros Hlen. unfold qpic_to_image. by rewrite qpic_header.
Qed.

Lemma len_qpic_pixels data :
  8 <= len data ->
  len (slice data 8 (8 + u32_at data 0 * u32_at data 4))
  = Z.min (u32_at data 0 * u32_at data 4) (len data - 8).
Proof.
  intros Hlen. rewrite len_slice by lia.
  pose proof (u32_at_range data 0). pose proof (u32_at_range data 4). nia.
Qed.

Lemma qpic_to_image_Ok env data palette :
  8 <= len data ->
  u32_at data 0 * u32_at data 4 <= len data - 8 ->
  length palette = 256%nat ->
  u32_at data 0 <= INT_MAX -> u32_at data 4 <= INT_MAX ->
  out_of_memory env (u32_at data 0) (u32_at data 4) = false ->
  exists pixels,
    qpic_to_image env data palette
    = Ok {| img_width := u32_at data 0; img_height := u32_at data 4;
            img_pixels := pixels |} /\
    Forall2 (fun b px => palette !! Z.to_nat (byte_Z b) = Some px)
      (slice data 8 (8 + u32_at data 0 * u32_at data 4)) pixels.
Proof.
  intros Hlen Hfit Hpal Hw Hh Hmem. rewrite qpic_to_image_unfold by done. simpl.
  pose proof (len_qpic_pixels data Hlen) as Hpx.
  destruct (_ <? _) eqn:E; [lia|].
  rewrite Image_new_Ok by done. simpl.
  destruct (list_comp_Ok (palette_get palette)
              (slice data 8 (8 + u32_at data 0 * u32_at data 4)))
    as [pixels Hpixels].
  { intros b _. destruct (palette_get_Ok palette b Hpal) as (c & ? & _).
    by exists c. }
  rewrite Hpixels. simpl. exists pixels.
  apply list_comp_Ok_inv in Hpixels.
  assert (length pixels = Z.to_nat (u32_at data 0 * u32_at data 4)) as Hn.
  { pose proof (Forall2_length _ _ _ Hpixels). unfold len in *. lia. }
  rewrite putdata_new by done. split; [done|].
  eapply Forall2_impl; [exact Hpixels|]. simpl. intros b px Hget.
  destruct (palette_get_Ok palette b Hpal) as (c & Hc & Hlook). congruence.
Qed.

(** A complete record whose size the imaging library refuses. *)
Lemma qpic_to_image_refused env data palette :
  8 <= len data ->
  u32_at data 0 * u32_at data 4 <= len data - 8 ->
  (INT_MAX < u32_at data 0 \/ INT_MAX < u32_at data 4 ->
   qpic_to_image env data palette = Raise OverflowError) /\
  (u32_at data 0 <= INT_MAX -> u32_at data 4 <= INT_MAX ->
   out_of_memory env (u32_at data 0) (u32_at data 4) = true ->
   qpic_to_image env data palette = Raise MemoryError).
Proof.
  intros Hlen Hfit. rewrite qpic_to_image_unfold by done. simpl.
  pose proof (len_qpic_pixels data Hlen) as Hpx.
  destruct (_ <? _) eqn:E; [lia|]. split.
  - intros Hbig. by rewrite Image_new_OverflowError.
  - intros Hw Hh Hmem. by rewrite Image_new_MemoryError.
Qed.

Lemma qpic_pixel_lookup data (k : Z) :
  8 <= len data ->
  0 <= k < u32_at data 0 * u32_at data 4 ->
  u32_at data 0 * u32_at data 4 <= len data - 8 ->
  slice data 8 (8 + u32_at data 0 * u32_at data 4) !! Z.to_nat k
  = Some (byte_at data (8 + k)).
Proof.
  intros Hlen Hk Hfit. rewrite slice_lookup by lia.
  unfold byte_at. replace (Z.to_nat (8 + k)) with (Z.to_nat 8 + Z.to_nat k)%nat by lia.
  apply list_lookup_lookup_total_lt. unfold len in *. lia.
Qed.

(** A complete record does not always decode.  This one has the 8-byte
    header and declares a width of 2^31 and a height of 0, so the zero
    pixels it needs are there; the imaging library cannot take the width
    and the decoder ends with its [OverflowError]. *)
Lemma qpic_to_image_overflow_counterexample :
  len huge_qpic = 8 /\
  u32_at huge_qpic 0 = 2147483648 /\
  u32_at huge_qpic 4 = 0 /\
  u32_at huge_qpic 0 * u32_at huge_qpic 4 <= len huge_qpic - 8 /\
  length sample_palette = 256%nat /\
  qpic_to_image sample_env huge_qpic sample_palette = Raise OverflowError.
Proof. vm_compute. repeat split; done. Qed.

(** C2, amended. With a 256-entry color table, a payload of at least 8
    bytes whose declared [width * height] fits in the bytes after the
    header decodes to a [width] by [height] raster stored row by row,
    pixel [k] being the color table entry of byte [8 + k], when [width]
    and [height] are at most 2^31 - 1 and the imaging library can
    allocate the image.  When one of them is larger the decoder raises
    [OverflowError], and when the image cannot be allocated
    [MemoryError].  The 2x1 record with indices 0 and 255 decodes to the
    two table entries 0 and 255. *)
Theorem qpic_to_image_correct (env : Env) (palette : list rgba) :
  length palette = 256%nat ->
  (forall data : bytes,
     8 <= len data ->
     u32_at data 0 * u32_at data 4 <= len data - 8 ->
     (u32_at data 0 <= INT_MAX -> u32_at data 4 <= INT_MAX ->
      out_of_memory env (u32_at data 0) (u32_at data 4) = false ->
      exists img,
        qpic_to_image env data palette = Ok img /\
        img_width img = u32_at data 0 /\
        img_height img = u32_at data 4 /\
        len (img_pixels img) = u32_at data 0 * u32_at data 4 /\
        (forall k, 0 <= k < u32_at data 0 * u32_at data 4 ->
           img_pixels img !! Z.to_nat k
           = palette !! Z.to_nat (byte_Z (byte_at data (8 + k))) /\
           is_Some (img_pixels img !! Z.to_nat k)) /\
        (forall x y, 0 <= x < u32_at data 0 -> 0 <= y < u32_at data 4 ->
           getpixel img x y
           = palette !! Z.to_nat (byte_Z (byte_at data (8 + (y * u32_at data 0 + x)))))) /\
     (INT_MAX < u32_at data 0 \/ INT_MAX < u32_at data 4 ->
      qpic_to_image env data palette = Raise OverflowError) /\
     (u32_at data 0 <= INT_MAX -> u32_at data 4 <= INT_MAX ->
      out_of_memory env (u32_at data 0) (u32_at data 4) = true ->
      qpic_to_image env data palette = Raise MemoryError)) /\
  (out_of_memory env 2 1 = false ->
   palette !! 0%nat = Some (255, 0, 0, 255) ->
   palette !! 255%nat = Some (0, 0, 0, 0) ->
   qpic_to_image env [x02; x00; x00; x00; x01; x00; x00; x00; x00; xff] palette
   = Ok {| img_width := 2; img_height := 1;
           img_pixels := [(255, 0, 0, 255); (0, 0, 0, 0)] |}).
Proof.
  intros Hpal. split.
  - intros data Hlen Hfit.
    split; [|by apply qpic_to_image_refused].
    intros Hw Hh Hmem.
    destruct (qpic_to_image_Ok env data palette Hlen Hfit Hpal Hw Hh Hmem)
      as (pixels & Himg & Hpx).
    pose proof (Forall2_length _ _ _ Hpx) as Hn.
    pose proof (len_qpic_pixels data Hlen) as Hm.
    assert (forall k, 0 <= k < u32_at data 0 * u32_at data 4 ->
              pixels !! Z.to_nat k
              = palette !! Z.to_nat (byte_Z (byte_at data (8 + k))) /\
              is_Some (pixels !! Z.to_nat k)) as Hpixel.
    { intros k Hk.
      pose proof (qpic_pixel_lookup data k Hlen Hk Hfit) as Hb.
      destruct (Forall2_lookup_l _ _ _ _ _ Hpx Hb) as (px & Hpxk & Hget).
      rewrite Hpxk, Hget. split; [done|by eexists]. }
    eexists. split; [exact Himg|]. simpl.
    split; [done|]. split; [done|]. split; [unfold len in *; lia|].
    split; [exact Hpixel|].
    intros x y Hx Hy. unfold getpixel. simpl. apply Hpixel. nia.
  - intros Hmem H0 H255.
    rewrite qpic_to_image_unfold by (vm_compute; discriminate).
    change (u32_at [x02; x00; x00; x00; x01; x00; x00; x00; x00; xff] 0) with 2.
    change (u32_at [x02; x00; x00; x00; x01; x00; x00; x00; x00; xff] 4) with 1.
    rewrite Image_new_Ok by (try done; vm_compute; discriminate).
    simpl. unfold palette_get. simpl.
    change (Z.to_nat (byte_Z x00)) with 0%nat.
    change (Z.to_nat (byte_Z xff)) with 255%nat.
    rewrite H0, H255. simpl. done.
Qed.

Lemma qpic_to_image_correct_witness :
  (exists img,
     qpic_to_image sample_env sample_qpic sample_palette = Ok img /\
     img_width img = u32_at sample_qpic 0 /\
     img_height img = u32_at sample_qpic 4 /\
     len (img_pixels img) = u32_at sample_qpic 0 * u32_at sample_qpic 4 /\
     (forall k, 0 <= k < u32_at sample_qpic 0 * u32_at sample_qpic 4 ->
        img_pixels img !! Z.to_nat k
        = sample_palette !! Z.to_nat (byte_Z (byte_at sample_qpic (8 + k))) /\
        is_Some (img_pixels img !! Z.to_nat k)) /\
     (forall x y, 0 <= x < u32_at sample_qpic 0 -> 0 <= y < u32_at sample_qpic 4 ->
        getpixel img x y
        = sample_palette
            !! Z.to_nat (byte_Z (byte_at sample_qpic
                                   (8 + (y * u32_at sample_qpic 0 + x)))))) /\
  qpic_to_image sample_env huge_qpic sample_palette = Raise OverflowError /\
  qpic_to_image sample_env sample_qpic sample_palette
  = Ok {| img_width := 2; img_height := 1;
          img_pixels := [(255, 0, 0, 255); (0, 0, 0, 0)] |}.
Proof.
  pose proof (qpic_to_image_correct sample_env sample_palette eq_refl)
    as [Hall Hex].
  split; [|split].
  - apply (Hall sample_qpic); vm_compute; (reflexivity || discriminate).
  - apply (Hall huge_qpic); [vm_compute; discriminate..|].
    left. vm_compute. reflexivity.
  - apply Hex; reflexivity.
Defined.

(** The decoder raises a [ValueError] exactly when the record is
    truncated, whatever the color table. *)
Lemma qpic_to_image_ValueError env data palette :
  8 <= len data ->
  (exists why, qpic_to_image env data palette = Raise (ValueError why))
  <-> len data - 8 < u32_at data 0 * u32_at data 4.
Proof.
  intros Hlen. rewrite qpic_to_image_unfold by done. simpl.
  pose proof (len_qpic_pixels data Hlen) as Hpx.
  destruct (_ <? _) eqn:E.
  - split; [lia|]. intros _. by eexists.
  - split; [|lia]. intros [why Hwhy].
    destruct (Image_new _ _ _) as [img|e] eqn:Hnew; simpl in Hwhy.
    + destruct (list_comp _ _) as [ys|e] eqn:Hcomp; simpl in Hwhy; [done|].
      apply list_comp_Raise in Hcomp as (b & _ & Hb).
      apply palette_get_Raise in Hb. congruence.
    + apply Image_new_Raise in Hnew as [->| ->]; done.
Qed.

Lemma qpic_to_image_truncated env data palette :
  8 <= len data ->
  len data - 8 < u32_at data 0 * u32_at data 4 ->
  qpic_to_image env data palette
  = Raise (ValueError (QpicTruncated (len data - 8)
                         (u32_at data 0 * u32_at data 4))).
Proof.
  intros Hlen Hbig. rewrite qpic_to_image_unfold by done. simpl.
  pose proof (len_qpic_pixels data Hlen) as Hpx.
  destruct (_ <? _) eqn:E; [|lia]. do 3 f_equal. lia.
Qed.

(** C3. On a payload of at least 8 bytes the decoder raises a
    [ValueError] if and only if the declared [width * height] exceeds
    the bytes after the 8-byte header.  In the loop of [main] the
    exception is caught: when the line that reports it can be printed,
    the record is counted as skipped, the files stay as they are and the
    loop goes on with the records that follow. *)
Theorem qpic_to_image_fails_iff_truncated (env : Env) (data : bytes)
    (palette : list rgba) :
  8 <= len data ->
  ((exists why, qpic_to_image env data palette = Raise (ValueError why))
   <-> len data - 8 < u32_at data 0 * u32_at data 4) /\
  (len data - 8 < u32_at data 0 * u32_at data 4 ->
   let e := ValueError (QpicTruncated (len data - 8)
                          (u32_at data 0 * u32_at data 4)) in
   qpic_to_image env data palette = Raise e /\
   forall output_dir st name rest,
     print env (Failed name e) = None ->
     convert_items env output_dir palette ((name, (TYP_QPIC, data)) :: rest) st
     = convert_items env output_dir palette rest
         {| count := count st; skipped := skipped st + 1; files := files st |}).
Proof.
  intros Hlen. split; [by apply qpic_to_image_ValueError|].
  intros Hbig e.
  pose proof (qpic_to_image_truncated env data palette Hlen Hbig) as Herr.
  split; [done|]. intros output_dir st name rest Hprint.
  simpl. unfold try_convert.
  destruct (decide (TYP_QPIC ≠ TYP_QPIC)); [done|].
  fold e in Herr. by rewrite Herr, Hprint.
Qed.

Lemma qpic_to_image_fails_iff_truncated_witness :
  ((exists why, qpic_to_image sample_env truncated_qpic sample_palette
                = Raise (ValueError why))
   <-> len truncated_qpic - 8
       < u32_at truncated_qpic 0 * u32_at truncated_qpic 4) /\
  qpic_to_image sample_env truncated_qpic sample_palette
  = Raise (ValueError (QpicTruncated 1 4)) /\
  forall st rest,
    convert_items sample_env (str_of "out") sample_palette
      ((str_of "broken", (TYP_QPIC, truncated_qpic)) :: rest) st
    = convert_items sample_env (str_of "out") sample_palette rest
        {| count := count st; skipped := skipped st + 1; files := files st |}.
Proof.
  assert (8 <= len truncated_qpic) as Hlen by (vm_compute; discriminate).
  pose proof (qpic_to_image_fails_iff_truncated sample_env truncated_qpic
                sample_palette Hlen) as [Hiff Hbig].
  split; [exact Hiff|].
  destruct Hbig as [Herr Hloop]; [vm_compute; reflexivity|].
  split; [exact Herr|].
  intros st rest. apply Hloop. reflexivity.
Defined.

(** C8. With a 256-entry color table the lookup of any byte succeeds, so
    the decoder never raises an [IndexError]. *)
Theorem palette_lookup_never_fails (env : Env) (palette : list rgba) :
  length palette = 256%nat ->
  (forall b : byte, exists c,
     palette_get palette b = Ok c /\
     palette !! Z.to_nat (byte_Z b) = Some c) /\
  (forall pixels : bytes, exists img_data,
     list_comp (palette_get palette) pixels = Ok img_data /\
     length img_data = length pixels) /\
  (forall data : bytes, qpic_to_image env data palette ≠ Raise IndexError).
Proof.
  intros Hpal. split; [|split].
  - intros b. by apply palette_get_Ok.
  - intros pixels.
    destruct (list_comp_Ok (palette_get palette) pixels) as [ys Hys].
    { intros b _. destruct (palette_get_Ok palette b Hpal) as (c & ? & _).
      by exists c. }
    exists ys. split; [done|].
    apply list_comp_Ok_inv, Forall2_length in Hys. done.
  - intros data. unfold qpic_to_image.
    destruct (unpack_from_II data 0) as [[width height]|e] eqn:Hhdr; simpl.
    + destruct (_ <? _); [done|].
      destruct (Image_new _ _ _) as [img|e] eqn:Hnew; simpl.
      * destruct (list_comp _ _) as [ys|e] eqn:Hcomp; simpl; [done|].
        apply list_comp_Raise in Hcomp as (b & _ & Hb).
        destruct (palette_get_Ok palette b Hpal) as (c & Hc & _). congruence.
      * apply Image_new_Raise in Hnew as [->| ->]; done.
    + unfold unpack_from_II, unpack_II in Hhdr.
      repeat (case_match; try done); congruence.
Qed.

Lemma palette_lookup_never_fails_witness :
  (forall b : byte, exists c,
     palette_get sample_palette b = Ok c /\
     sample_palette !! Z.to_nat (byte_Z b) = Some c) /\
  (forall pixels : bytes, exists img_data,
     list_comp (palette_get sample_palette) pixels = Ok img_data /\
     length img_data = length pixels) /\
  (forall data : bytes,
     qpic_to_image sample_env data sample_palette ≠ Raise IndexError).
Proof.
  apply (palette_lookup_never_fails sample_env sample_palette). reflexivity.
Defined.

(** ** Dicts built by successive assignment *)

Lemma dict_of_snoc {V} (kvs : list (pystr * V)) kv :
  dict_of (kvs ++ [kv]) = <[kv.1 := kv.2]> (dict_of kvs).
Proof. unfold dict_of. by rewrite foldl_snoc. Qed.

Lemma foldl_insert_dict_of {V} (kvs1 kvs2 : list (pystr * V)) :
  foldl (fun m kv => <[kv.1 := kv.2]> m) (dict_of kvs1) kvs2
  = dict_of (kvs1 ++ kvs2).
Proof. unfold dict_of. by rewrite foldl_app. Qed.

(** A key maps to the value of its last pair. *)
Lemma dict_of_lookup_Some {V} (kvs : list (pystr * V)) k v :
  dict_of kvs !! k = Some v <->
  exists i : nat,
    kvs !! i = Some (k, v) /\
    forall (j : nat) kv, (i < j)%nat -> kvs !! j = Some kv -> kv.1 ≠ k.
Proof.
  revert v. induction kvs as [|[k' v'] kvs IH] using rev_ind; intros v.
  - unfold dict_of. simpl. rewrite lookup_empty. split; [done|].
    intros (i & Hi & _). by rewrite lookup_nil in Hi.
  - rewrite dict_of_snoc, lookup_insert. simpl. case_decide as Hk.
    + subst k'. split.
      * intros [= <-]. exists (length kvs). split.
        -- by rewrite lookup_app_r, Nat.sub_diag by lia.
        -- intros j kv Hj Hkv. apply lookup_lt_Some in Hkv.
           rewrite length_app in Hkv. simpl in Hkv. lia.
      * intros (i & Hi & Hlast).
        destruct (decide (i = length kvs)) as [->|Hne].
        -- rewrite lookup_app_r, Nat.sub_diag in Hi by lia.
           simpl in Hi. congruence.
        -- pose proof (lookup_lt_Some _ _ _ Hi) as Hlt.
           rewrite length_app in Hlt. simpl in Hlt.
           exfalso. apply (Hlast (length kvs) (k, v')); [lia| |done].
           by rewrite lookup_app_r, Nat.sub_diag by lia.
    + rewrite IH. split.
      * intros (i & Hi & Hlast). exists i. split.
        -- by apply lookup_app_l_Some.
        -- intros j kv Hj Hkv.
           destruct (decide (j < length kvs)%nat) as [Hlt|Hge].
           ++ rewrite lookup_app_l in Hkv by done. by eapply Hlast.
           ++ rewrite lookup_app_r in Hkv by lia.
              destruct (j - length kvs)%nat; simpl in Hkv; [|done].
              injection Hkv as <-. simpl. done.
      * intros (i & Hi & Hlast).
        destruct (decide (i < length kvs)%nat) as [Hlt|Hge].
        -- exists i. rewrite lookup_app_l in Hi by done. split; [done|].
           intros j kv Hj Hkv. apply (Hlast j kv Hj).
           by apply lookup_app_l_Some.
        -- rewrite lookup_app_r in Hi by lia.
           destruct (i - length kvs)%nat; simpl in Hi; [|done].
           congruence.
Qed.

(** The keys of the dict are the keys of the pairs. *)
Lemma dict_of_is_Some {V} (kvs : list (pystr * V)) k :
  is_Some (dict_of kvs !! k) <-> exists (i : nat) v, kvs !! i = Some (k, v).
Proof.
  induction kvs as [|[k' v'] kvs IH] using rev_ind.
  - unfold dict_of. simpl. rewrite lookup_empty. split.
    + by intros [? ?].
    + intros (i & v & Hi). by rewrite lookup_nil in Hi.
  - rewrite dict_of_snoc, lookup_insert. simpl. case_decide as Hk.
    + subst k'. split; [|by eexists]. intros _.
      exists (length kvs), v'. by rewrite lookup_app_r, Nat.sub_diag by lia.
    + rewrite IH. split.
      * intros (i & v & Hi). exists i, v. by apply lookup_app_l_Some.
      * intros (i & v & Hi).
        destruct (decide (i < length kvs)%nat) as [Hlt|Hge].
        -- exists i, v. by rewrite lookup_app_l in Hi.
        -- rewrite lookup_app_r in Hi by lia.
           destruct (i - length kvs)%nat; simpl in Hi; [|done].
           congruence.
Qed.

(** Reading positions of a list of records numbered from 0. *)
Lemma lookup_fmap_seqZ {B} (f : Z -> B) (n : Z) (i : nat) y :
  (f <$> seqZ 0 n) !! i = Some y <-> y = f (Z.of_nat i) /\ Z.of_nat i < n.
Proof.
  rewrite list_lookup_fmap. split.
  - destruct (seqZ 0 n !! i) as [z|] eqn:E; simpl; [|done].
    apply lookup_seqZ in E as [-> ?]. intros [= <-]. split; [f_equal; lia|done].
  - intros [-> Hi]. by rewrite lookup_seqZ_lt.
Qed.

Lemma dict_of_records_lookup {V} (f : Z -> pystr * V) (n : Z) k v :
  dict_of (f <$> seqZ 0 n) !! k = Some v <->
  exists i, 0 <= i < n /\ (f i).1 = k /\ (f i).2 = v /\
            forall j, i < j < n -> (f j).1 ≠ k.
Proof.
  rewrite dict_of_lookup_Some. split.
  - intros (i & Hi & Hlast). apply lookup_fmap_seqZ in Hi as [Hi Hlt].
    exists (Z.of_nat i). rewrite <- Hi. simpl.
    split; [lia|]. split; [done|]. split; [done|].
    intros j Hj. apply (Hlast (Z.to_nat j)); [lia|].
    apply lookup_fmap_seqZ. split; [f_equal|]; lia.
  - intros (i & Hi & Hk & Hv & Hlast). exists (Z.to_nat i). split.
    + apply lookup_fmap_seqZ. rewrite Z2Nat.id by lia.
      split; [|lia]. destruct (f i). simpl in *. congruence.
    + intros j kv Hj Hkv. apply lookup_fmap_seqZ in Hkv as [-> Hlt].
      apply Hlast. lia.
Qed.

Lemma dict_of_records_is_Some {V} (f : Z -> pystr * V) (n : Z) k :
  is_Some (dict_of (f <$> seqZ 0 n) !! k) <->
  exists i, 0 <= i < n /\ (f i).1 = k.
Proof.
  rewrite dict_of_is_Some. split.
  - intros (i & v & Hi). apply lookup_fmap_seqZ in Hi as [Hi Hlt].
    exists (Z.of_nat i). rewrite <- Hi. simpl. split; [lia|done].
  - intros (i & Hi & Hk). exists (Z.to_nat i), (f i).2.
    apply lookup_fmap_seqZ. rewrite Z2Nat.id by lia.
    split; [|lia]. destruct (f i). simpl in *. congruence.
Qed.

(** ** The nested container reader *)

Lemma unpack_from_IIIBb_in_range data off :
  0 <= off -> off + 14 <= len data ->
  unpack_from_IIIBb data off
  = Ok (u32_at data off, u32_at data (off + 4), u32_at data (off + 8),
        u8 (byte_at data (off + 12)), i8 (byte_at data (off + 13))).
Proof.
  intros Hlo Hhi. unfold unpack_from_IIIBb.
  change (off + 14) with (off + Z.of_nat 14).
  rewrite slice_in_range by (simpl; lia). simpl.
  rewrite !byte_at_add by done. unfold u32_at.
  rewrite <- !Z.add_assoc. simpl. by rewrite Z.add_0_r.
Qed.

Lemma unpack_from_IIIBb_short data off :
  0 <= off -> len data < off + 14 ->
  unpack_from_IIIBb data off = Raise StructError.
Proof.
  intros Hlo Hhi. unfold unpack_from_IIIBb.
  pose proof (len_slice data off (off + 14) Hlo) as Hlen.
  destruct (slice data off (off + 14)) as [|? buf]; [done|].
  do 13 (destruct buf as [|? buf]; [done|]).
  unfold len in *. simpl in Hlen. lia.
Qed.

Lemma wad_record_nonneg data i : 0 <= i -> 0 <= Wad.record data i.
Proof.
  intros Hi. unfold Wad.record, Wad.dir_offset.
  pose proof (u32_at_range data 8). lia.
Qed.

Lemma read_wad_step_in_range data i lumps :
  0 <= i -> Wad.record data i + 14 <= len data ->
  read_wad_step data (Wad.dir_offset data) i lumps
  = Ok (<[(Wad.entry data i).1 := (Wad.entry data i).2]> lumps).
Proof.
  intros Hi Hlen. unfold read_wad_step.
  fold (Wad.record data i).
  rewrite unpack_from_IIIBb_in_range by (auto using wad_record_nonneg).
  done.
Qed.

Lemma read_wad_step_short data i lumps :
  0 <= i -> len data < Wad.record data i + 14 ->
  read_wad_step data (Wad.dir_offset data) i lumps = Raise StructError.
Proof.
  intros Hi Hlen. unfold read_wad_step.
  fold (Wad.record data i).
  by rewrite unpack_from_IIIBb_short by (auto using wad_record_nonneg).
Qed.

Lemma read_wad_loop data (n : nat) : forall k lumps,
  0 <= k ->
  (forall i, k <= i < k + Z.of_nat n -> Wad.record data i + 14 <= len data) ->
  for_each (seqZ k (Z.of_nat n)) (read_wad_step data (Wad.dir_offset data)) lumps
  = Ok (foldl (fun m kv => <[kv.1 := kv.2]> m) lumps
          (Wad.entry data <$> seqZ k (Z.of_nat n))).
Proof.
  induction n as [|n IH]; intros k lumps Hk Hin.
  - by rewrite seqZ_nil by lia.
  - rewrite seqZ_cons by lia. simpl.
    rewrite read_wad_step_in_range by (try apply Hin; lia). simpl.
    replace (Z.pred (Z.of_nat (S n))) with (Z.of_nat n) by lia.
    apply IH; [lia|]. intros i Hi. apply Hin. lia.
Qed.

Lemma read_wad_loop_inv data (n : nat) : forall k lumps lumps',
  0 <= k ->
  for_each (seqZ k (Z.of_nat n)) (read_wad_step data (Wad.dir_offset data)) lumps
  = Ok lumps' ->
  forall i, k <= i < k + Z.of_nat n -> Wad.record data i + 14 <= len data.
Proof.
  induction n as [|n IH]; intros k lumps lumps' Hk Hok i Hi; [lia|].
  rewrite seqZ_cons in Hok by lia. simpl in Hok.
  destruct (decide (Wad.record data k + 14 <= len data)) as [Hin|Hout].
  - rewrite read_wad_step_in_range in Hok by done. simpl in Hok.
    replace (Z.pred (Z.of_nat (S n))) with (Z.of_nat n) in Hok by lia.
    destruct (decide (i = k)) as [->|Hne]; [done|].
    eapply (IH (Z.succ k)); [lia|exact Hok|lia].
  - rewrite read_wad_step_short in Hok by lia. done.
Qed.

Lemma read_wad_records data n :
  0 <= n ->
  (forall i, 0 <= i < n -> Wad.record data i + 14 <= len data) ->
  for_each (seqZ 0 n) (read_wad_step data (Wad.dir_offset data)) ∅
  = Ok (dict_of (Wad.entry data <$> seqZ 0 n)).
Proof.
  intros Hn Hin. rewrite <- (Z2Nat.id n) by done.
  apply read_wad_loop; [done|]. intros i Hi. apply Hin. lia.
Qed.

Lemma read_wad_records_inv data n lumps :
  0 <= n ->
  for_each (seqZ 0 n) (read_wad_step data (Wad.dir_offset data)) ∅ = Ok lumps ->
  forall i, 0 <= i < n -> Wad.record data i + 14 <= len data.
Proof.
  intros Hn Hok i Hi. rewrite <- (Z2Nat.id n) in Hok by done.
  eapply read_wad_loop_inv; [|exact Hok|]; lia.
Qed.

(** The reader succeeds exactly on a buffer with the magic, the 12-byte
    header and the first 14 bytes of every directory record, and then
    returns the dict of the records in directory order. *)
Lemma read_wad_Ok_iff data lumps :
  read_wad data = Ok lumps <->
  slice data 0 4 = bytes_of "WAD2" /\
  12 <= len data /\
  (forall i, 0 <= i < Wad.num_lumps data ->
     Wad.record data i + 14 <= len data) /\
  lumps = dict_of (Wad.entry data <$> seqZ 0 (Wad.num_lumps data)).
Proof.
  unfold read_wad. simpl.
  destruct (decide (slice data 0 4 ≠ bytes_of "WAD2")) as [Hm|Hm].
  { split; [done|]. by intros [? _]. }
  apply dec_stable in Hm.
  destruct (decide (12 <= len data)) as [Hlen|Hlen].
  - rewrite unpack_from_II_in_range by lia. simpl.
    fold (Wad.num_lumps data). change (u32_at data (4 + 4)) with (Wad.dir_offset data).
    pose proof (u32_at_range data 4) as Hn. fold (Wad.num_lumps data) in Hn.
    split.
    + intros Hok. split; [done|]. split; [done|].
      pose proof (read_wad_records_inv _ _ _ (proj1 Hn) Hok) as Hin.
      split; [done|].
      rewrite read_wad_records in Hok by (done || lia). congruence.
    + intros (_ & _ & Hin & ->).
      by rewrite read_wad_records by (done || lia).
  - unfold unpack_from_II. rewrite unpack_II_short; simpl.
    + split; [done|]. intros (_ & ? & _). lia.
    + pose proof (len_slice data 4 (4 + 8)) as Hs. unfold len in *. lia.
Qed.

Lemma read_wad_lookup data lumps name ty d :
  read_wad data = Ok lumps ->
  lumps !! name = Some (ty, d) <->
  exists i, 0 <= i < Wad.num_lumps data /\
            Wad.name data i = name /\
            u8 (Wad.type_byte data i) = ty /\
            Wad.payload data i = d /\
            forall j, i < j < Wad.num_lumps data -> Wad.name data j ≠ name.
Proof.
  intros Hok. apply read_wad_Ok_iff in Hok as (_ & _ & _ & ->).
  rewrite dict_of_records_lookup. unfold Wad.entry. simpl.
  split; intros (i & Hi & Hrest); exists i; (split; [done|]).
  - destruct Hrest as (? & [= ? ?] & ?). done.
  - destruct Hrest as (? & ? & ? & ?). repeat split; (done || congruence).
Qed.

(** The type field is not read as a signed byte: a type byte 0x80 is
    stored as 128, not as -128. *)
Lemma read_wad_type_signed_counterexample :
  slice high_type_wad 0 4 = bytes_of "WAD2" /\
  Wad.type_byte high_type_wad 0 = x80 /\
  i8 x80 = -128 /\
  (lumps ← read_wad high_type_wad; Ok (lumps !! str_of "a"))
  = Ok (Some (128, [])).
Proof. vm_compute. done. Qed.

(** C5, amended. The type field of each record, the byte at offset 12, is
    read as an unsigned 8-bit integer: every stored type is the value
    0..255 of the type byte of its record, so a type byte of 0x80 or more
    gives a type of 128 or more.  The compression byte at offset 13 is
    read as a signed 8-bit integer. *)
Theorem read_wad_type_unsigned (data : bytes) (lumps : gmap pystr (Z * bytes)) :
  read_wad data = Ok lumps ->
  (forall name ty d,
     lumps !! name = Some (ty, d) ->
     exists i, 0 <= i < Wad.num_lumps data /\
               Wad.name data i = name /\
               ty = byte_Z (Wad.type_byte data i) /\
               0 <= ty <= 255 /\
               (128 <= byte_Z (Wad.type_byte data i) -> 128 <= ty)) /\
  (forall i, 0 <= i < Wad.num_lumps data ->
     exists lump_offset disk_size full_size lump_type compression,
       unpack_from_IIIBb data (Wad.dir_offset data + i * 32)
       = Ok (lump_offset, disk_size, full_size, lump_type, compression) /\
       lump_type = byte_Z (Wad.type_byte data i) /\
       compression = i8 (Wad.compression_byte data i) /\
       -128 <= compression <= 127 /\
       (128 <= byte_Z (Wad.compression_byte data i) ->
        compression = byte_Z (Wad.compression_byte data i) - 256)).
Proof.
  intros Hok. split.
  - intros name ty d Hlook.
    apply (read_wad_lookup _ _ _ _ _ Hok) in Hlook
      as (i & Hi & Hname & Hty & _).
    exists i. unfold u8 in Hty. subst ty.
    pose proof (byte_Z_range (Wad.type_byte data i)).
    repeat split; (done || lia).
  - intros i Hi. apply read_wad_Ok_iff in Hok as (_ & _ & Hin & _).
    fold (Wad.record data i).
    rewrite unpack_from_IIIBb_in_range
      by (try apply wad_record_nonneg; try apply Hin; lia).
    do 5 eexists. split; [reflexivity|]. split; [done|]. split; [done|].
    split; [apply i8_range|].
    intros Hhigh. unfold i8. fold (Wad.compression_byte data i).
    destruct (_ <? _) eqn:E; [lia|done].
Qed.

Lemma read_wad_type_unsigned_witness :
  read_wad high_type_wad = Ok {[ str_of "a" := (128, []) ]} /\
  forall name ty d,
    ({[ str_of "a" := (128, []) ]} : gmap pystr (Z * bytes)) !! name
    = Some (ty, d) ->
    exists i, 0 <= i < Wad.num_lumps high_type_wad /\
              Wad.name high_type_wad i = name /\
              ty = byte_Z (Wad.type_byte high_type_wad i) /\
              0 <= ty <= 255 /\
              (128 <= byte_Z (Wad.type_byte high_type_wad i) -> 128 <= ty).
Proof.
  assert (read_wad high_type_wad = Ok {[ str_of "a" := (128, []) ]}) as Hok
    by (vm_compute; reflexivity).
  split; [exact Hok|].
  exact (proj1 (read_wad_type_unsigned high_type_wad _ Hok)).
Defined.

Lemma slice_past_end {A} (data : list A) lo hi :
  0 <= lo -> len data <= hi -> slice data lo hi = drop (Z.to_nat lo) data.
Proof.
  intros Hlo Hhi. unfold slice. apply take_ge.
  rewrite length_drop. unfold len in *. lia.
Qed.

(** C10. A buffer with the magic, the header and all its 32-byte
    directory records inside it is parsed whatever the payload offsets
    and sizes are; a stored payload is the part of
    [lump_offset .. lump_offset + size_on_disk] the buffer has, so a
    payload that reaches past the end is cut at the end of the buffer
    (possibly to nothing) and is shorter than a non-zero declared size. *)
Theorem read_wad_truncates_payload (data : bytes) :
  slice data 0 4 = bytes_of "WAD2" ->
  12 <= len data ->
  (forall i, 0 <= i < Wad.num_lumps data ->
     Wad.record data i + 32 <= len data) ->
  exists lumps,
    read_wad data = Ok lumps /\
    (forall i, 0 <= i < Wad.num_lumps data ->
       is_Some (lumps !! Wad.name data i)) /\
    (forall name ty d,
       lumps !! name = Some (ty, d) ->
       exists i, 0 <= i < Wad.num_lumps data /\
         Wad.name data i = name /\
         d = slice data (Wad.lump_offset data i)
               (Wad.lump_offset data i + Wad.disk_size data i) /\
         len d = Z.min (Wad.disk_size data i)
                   (Z.max 0 (len data - Wad.lump_offset data i)) /\
         (len data < Wad.lump_offset data i + Wad.disk_size data i ->
          d = drop (Z.to_nat (Wad.lump_offset data i)) data /\
          len d = Z.max 0 (len data - Wad.lump_offset data i) /\
          (0 < Wad.disk_size data i -> len d < Wad.disk_size data i))).
Proof.
  intros Hmagic Hlen Hin.
  assert (read_wad data
          = Ok (dict_of (Wad.entry data <$> seqZ 0 (Wad.num_lumps data))))
    as Hok.
  { apply read_wad_Ok_iff. repeat split; try done.
    intros i Hi. specialize (Hin i Hi). lia. }
  eexists. split; [exact Hok|]. split.
  - intros i Hi. apply dict_of_records_is_Some. by exists i.
  - intros name ty d Hlook.
    apply (read_wad_lookup _ _ _ _ _ Hok) in Hlook
      as (i & Hi & Hname & _ & Hd & _).
    exists i. split; [done|]. split; [done|].
    unfold Wad.payload in Hd. subst d.
    pose proof (u32_at_range data (Wad.record data i)) as Hlo.
    pose proof (u32_at_range data (Wad.record data i + 4)) as Hds.
    fold (Wad.lump_offset data i) in Hlo. fold (Wad.disk_size data i) in Hds.
    split; [done|]. split.
    + rewrite len_slice by lia. lia.
    + intros Hpast. split; [apply slice_past_end; lia|].
      rewrite len_slice by lia. split; lia.
Qed.

Lemma read_wad_truncates_payload_witness :
  exists lumps,
    read_wad overlong_wad = Ok lumps /\
    (forall i, 0 <= i < Wad.num_lumps overlong_wad ->
       is_Some (lumps !! Wad.name overlong_wad i)) /\
    (forall name ty d,
       lumps !! name = Some (ty, d) ->
       exists i, 0 <= i < Wad.num_lumps overlong_wad /\
         Wad.name overlong_wad i = name /\
         d = slice overlong_wad (Wad.lump_offset overlong_wad i)
               (Wad.lump_offset overlong_wad i + Wad.disk_size overlong_wad i) /\
         len d = Z.min (Wad.disk_size overlong_wad i)
                   (Z.max 0 (len overlong_wad - Wad.lump_offset overlong_wad i)) /\
         (len overlong_wad
          < Wad.lump_offset overlong_wad i + Wad.disk_size overlong_wad i ->
          d = drop (Z.to_nat (Wad.lump_offset overlong_wad i)) overlong_wad /\
          len d = Z.max 0 (len overlong_wad - Wad.lump_offset overlong_wad i) /\
          (0 < Wad.disk_size overlong_wad i ->
           len d < Wad.disk_size overlong_wad i))).
Proof.
  apply (read_wad_truncates_payload overlong_wad).
  - reflexivity.
  - vm_compute. discriminate.
  - intros i Hi. change (Wad.num_lumps overlong_wad) with 1 in Hi.
    assert (i = 0) as -> by lia. vm_compute. discriminate.
Defined.

(** The record of the sample reaches past the end: 4 of its 100 declared
    bytes are stored. *)
Example read_wad_overlong :
  (lumps ← read_wad overlong_wad; Ok (lumps !! str_of "pic"))
  = Ok (Some (0x42, [x00; x00; x00; x00])).
Proof. vm_compute. done. Qed.

(** ** The outer archive reader *)

Lemma pak_record_nonneg file i : 0 <= i -> 0 <= Pak.record file i.
Proof.
  intros Hi. unfold Pak.record, Pak.dir_offset.
  pose proof (u32_at_range file 4). lia.
Qed.

Lemma pak_record_succ file i : Pak.record file (Z.succ i) = Pak.record file i + 64.
Proof. unfold Pak.record. lia. Qed.

(** One directory record read at position [p]: the dict gets the entry
    and the position ends after the record. *)
Lemma read_pak_entry_in_range file entries p :
  0 <= p -> p + 64 <= len file ->
  read_pak_entry file entries p
  = Ok (<[lower (decode_name (slice file p (p + 56))) :=
            slice file (u32_at file (p + 56))
              (u32_at file (p + 56) + u32_at file (p + 60))]> entries,
        p + 64).
Proof.
  intros Hp Hlen.
  assert (len (slice file p (p + 56)) = 56) as Hname
    by (rewrite len_slice by done; lia).
  assert (len (slice file (p + 56) (p + 56 + 8)) = 8) as Hbuf
    by (rewrite len_slice by lia; lia).
  cbv [read_pak_entry mbind fileM_bind f_read f_lift f_tell f_seek mret fileM_ret].
  rewrite Hname, Hbuf.
  change (unpack_II (slice file (p + 56) (p + 56 + 8)))
    with (unpack_from_II file (p + 56)).
  rewrite unpack_from_II_in_range by lia.
  replace (p + 56 + 4) with (p + 60) by lia.
  replace (p + 56 + 8) with (p + 64) by lia. done.
Qed.

Lemma read_pak_entry_short file entries p :
  0 <= p -> len file < p + 64 ->
  read_pak_entry file entries p = Raise StructError.
Proof.
  intros Hp Hlen.
  cbv [read_pak_entry mbind fileM_bind f_read f_lift f_tell f_seek mret fileM_ret].
  rewrite unpack_II_short; [done|].
  pose proof (len_slice file p (p + 56) Hp) as Hname.
  pose proof (len_nonneg (slice file p (p + 56))) as Hname0.
  pose proof (len_slice file (p + len (slice file p (p + 56)))
                (p + len (slice file p (p + 56)) + 8)) as Hbuf.
  unfold len in *. lia.
Qed.

Lemma read_pak_loop_in_range file (n : nat) : forall k entries,
  0 <= k ->
  (forall i, k <= i < k + Z.of_nat n -> Pak.record file i + 64 <= len file) ->
  read_pak_loop file n entries (Pak.record file k)
  = Ok (foldl (fun m kv => <[kv.1 := kv.2]> m) entries
          (Pak.entry file <$> seqZ k (Z.of_nat n)),
        Pak.record file (k + Z.of_nat n)).
Proof.
  induction n as [|n IH]; intros k entries Hk Hin.
  - rewrite seqZ_nil by lia. simpl. by rewrite Z.add_0_r.
  - rewrite seqZ_cons by lia. simpl.
    unfold mbind, fileM_bind.
    rewrite read_pak_entry_in_range
      by (try apply pak_record_nonneg; try apply Hin; lia).
    rewrite <- pak_record_succ.
    replace (Z.pred (Z.of_nat (S n))) with (Z.of_nat n) by lia.
    rewrite IH by (try lia; intros; apply Hin; lia).
    do 2 f_equal. f_equal. lia.
Qed.

Lemma read_pak_loop_inv file (n : nat) : forall k entries r,
  0 <= k ->
  read_pak_loop file n entries (Pak.record file k) = Ok r ->
  forall i, k <= i < k + Z.of_nat n -> Pak.record file i + 64 <= len file.
Proof.
  induction n as [|n IH]; intros k entries r Hk Hok i Hi; [lia|].
  simpl in Hok. unfold mbind, fileM_bind in Hok.
  destruct (decide (Pak.record file k + 64 <= len file)) as [Hin|Hout].
  - rewrite read_pak_entry_in_range in Hok
      by (try apply pak_record_nonneg; lia).
    rewrite <- pak_record_succ in Hok.
    destruct (decide (i = k)) as [->|Hne]; [done|].
    eapply (IH (Z.succ k)); [lia|exact Hok|lia].
  - rewrite read_pak_entry_short in Hok
      by (try apply pak_record_nonneg; lia).
    done.
Qed.

(** The reader succeeds exactly on a file with the magic, the 12-byte
    header and the [dir_size / 64] directory records, and then returns
    the dict of the records in directory order. *)
Lemma read_pak_Ok_iff file entries :
  read_pak file = Ok entries <->
  slice file 0 4 = bytes_of "PACK" /\
  12 <= len file /\
  (forall i, 0 <= i < Pak.num_entries file ->
     Pak.record file i + 64 <= len file) /\
  entries = dict_of (Pak.entry file <$> seqZ 0 (Pak.num_entries file)).
Proof.
  unfold read_pak, read_pak_body.
  cbv [mbind fileM_bind f_read f_lift f_seek f_raise].
  rewrite Z.add_0_l.
  destruct (decide (slice file 0 4 ≠ bytes_of "PACK")) as [Hm|Hm].
  { split; [done|]. by intros [? _]. }
  apply dec_stable in Hm. rewrite Hm.
  change (len (bytes_of "PACK")) with 4. change (0 + 4) with 4.
  destruct (decide (12 <= len file)) as [Hlen|Hlen].
  - change (unpack_II (slice file 4 (4 + 8))) with (unpack_from_II file 4).
    rewrite unpack_from_II_in_range by lia.
    change (u32_at file (4 + 4)) with (Pak.dir_size file).
    fold (Pak.num_entries file).
    pose proof (u32_at_range file 8) as Hsz. fold (Pak.dir_size file) in Hsz.
    assert (0 <= Pak.num_entries file) as Hn
      by (unfold Pak.num_entries; apply Z.div_pos; lia).
    replace (u32_at file 4) with (Pak.record file 0)
      by (unfold Pak.record, Pak.dir_offset; lia).
    split.
    + intros Hok. split; [done|]. split; [done|].
      destruct (read_pak_loop _ _ _ _) as [[entries' pos']|e] eqn:Hloop; [|done].
      injection Hok as ->.
      pose proof (read_pak_loop_inv _ _ _ _ _ (Z.le_refl 0) Hloop) as Hin.
      assert (forall i, 0 <= i < Pak.num_entries file ->
                Pak.record file i + 64 <= len file) as Hin'
        by (intros i Hi; apply Hin; lia).
      split; [done|].
      rewrite read_pak_loop_in_range in Hloop by (done || intros; apply Hin; lia).
      rewrite Z2Nat.id in Hloop by done. unfold dict_of. congruence.
    + intros (_ & _ & Hin & ->).
      rewrite read_pak_loop_in_range
        by (try done; intros i Hi; apply Hin; lia).
      by rewrite Z2Nat.id by done.
  - rewrite unpack_II_short.
    + split; [done|]. intros (_ & ? & _). lia.
    + pose proof (len_slice file 4 (4 + 8)) as Hs. unfold len in *. lia.
Qed.

Lemma read_pak_lookup file entries name payload :
  read_pak file = Ok entries ->
  entries !! name = Some payload <->
  exists i, 0 <= i < Pak.num_entries file /\
            Pak.name file i = name /\
            Pak.payload file i = payload /\
            forall j, i < j < Pak.num_entries file -> Pak.name file j ≠ name.
Proof.
  intros Hok. apply read_pak_Ok_iff in Hok as (_ & _ & _ & ->).
  by rewrite dict_of_records_lookup.
Qed.

Lemma read_pak_is_Some file entries name :
  read_pak file = Ok entries ->
  is_Some (entries !! name) <->
  exists i, 0 <= i < Pak.num_entries file /\ Pak.name file i = name.
Proof.
  intros Hok. apply read_pak_Ok_iff in Hok as (_ & _ & _ & ->).
  by rewrite dict_of_records_is_Some.
Qed.

Lemma pak_payload_len file i :
  len (Pak.payload file i)
  = Z.min (Pak.size file i) (Z.max 0 (len file - Pak.offset file i)).
Proof.
  unfold Pak.payload.
  pose proof (u32_at_range file (Pak.record file i + 56)) as Hoff.
  pose proof (u32_at_range file (Pak.record file i + 60)) as Hsz.
  fold (Pak.offset file i) in Hoff. fold (Pak.size file i) in Hsz.
  rewrite len_slice by lia. lia.
Qed.

Lemma pak_payload_lookup file i k :
  0 <= k < Pak.size file i ->
  Pak.payload file i !! Z.to_nat k = file !! Z.to_nat (Pak.offset file i + k).
Proof.
  intros Hk. unfold Pak.payload.
  pose proof (u32_at_range file (Pak.record file i + 56)) as Hoff.
  fold (Pak.offset file i) in Hoff.
  rewrite slice_lookup by lia. f_equal. lia.
Qed.

(** A value does not always hold [size] bytes.  This archive has the
    magic, the header and its one directory record in place; the record
    declares 9 bytes at offset 70 of the 76-byte file, and the entry
    holds the 6 bytes there are. *)
Lemma read_pak_payload_counterexample :
  slice overlong_pak 0 4 = bytes_of "PACK" /\
  len overlong_pak = 76 /\
  Pak.dir_offset overlong_pak = 12 /\
  Pak.dir_size overlong_pak = 64 /\
  Pak.offset overlong_pak 0 = 70 /\
  Pak.size overlong_pak 0 = 9 /\
  (entries ← read_pak overlong_pak; Ok (len <$> entries !! str_of "a"))
  = Ok (Some 6).
Proof. vm_compute. done. Qed.

(** C1, amended. On a file with the magic, the 12-byte header and the
    [dir_size / 64] directory records, the reader returns a dict with
    exactly the decoded lowercase names of the records as keys; the value
    of a name is the payload of the last record with that name, and the
    payload of a record is the bytes of the file from [offset] up to
    [offset + size] or to the end of the file: exactly the [size] bytes at
    [offset] when they lie inside the file, fewer otherwise. *)
Theorem read_pak_correct (file : bytes) :
  slice file 0 4 = bytes_of "PACK" ->
  12 <= len file ->
  (forall i, 0 <= i < Pak.num_entries file ->
     Pak.record file i + 64 <= len file) ->
  exists entries,
    read_pak file = Ok entries /\
    (forall name,
       is_Some (entries !! name) <->
       exists i, 0 <= i < Pak.num_entries file /\
         name = lower (decode_ascii (before_nul
                  (slice file (Pak.record file i) (Pak.record file i + 56))))) /\
    (forall name payload,
       entries !! name = Some payload <->
       exists i, 0 <= i < Pak.num_entries file /\
         Pak.name file i = name /\
         payload = slice file (Pak.offset file i)
                     (Pak.offset file i + Pak.size file i) /\
         forall j, i < j < Pak.num_entries file -> Pak.name file j ≠ name) /\
    (forall i,
       len (Pak.payload file i)
       = Z.min (Pak.size file i) (Z.max 0 (len file - Pak.offset file i)) /\
       (Pak.offset file i + Pak.size file i <= len file ->
        len (Pak.payload file i) = Pak.size file i /\
        forall k, 0 <= k < Pak.size file i ->
          Pak.payload file i !! Z.to_nat k
          = Some (byte_at file (Pak.offset file i + k)))).
Proof.
  intros Hmagic Hlen Hin.
  assert (read_pak file
          = Ok (dict_of (Pak.entry file <$> seqZ 0 (Pak.num_entries file))))
    as Hok by (by apply read_pak_Ok_iff).
  eexists. split; [exact Hok|]. split; [|split].
  - intros name. rewrite (read_pak_is_Some _ _ _ Hok).
    split; intros (i & Hi & Hname); exists i; (split; [done|]);
      unfold Pak.name, decode_name in *; done.
  - intros name payload. rewrite (read_pak_lookup _ _ _ _ Hok).
    split; intros (i & Hi & Hname & Hpay & Hlast); exists i;
      unfold Pak.payload in *; done.
  - intros i. split; [apply pak_payload_len|]. intros Hfit.
    pose proof (u32_at_range file (Pak.record file i + 56)) as Hoff.
    pose proof (u32_at_range file (Pak.record file i + 60)) as Hsz.
    fold (Pak.offset file i) in Hoff. fold (Pak.size file i) in Hsz.
    split; [rewrite pak_payload_len; lia|].
    intros k Hk. rewrite pak_payload_lookup by done.
    apply list_lookup_lookup_total_lt. unfold len in *. lia.
Qed.

Lemma read_pak_correct_witness :
  exists entries,
    read_pak overlong_pak = Ok entries /\
    (forall name payload,
       entries !! name = Some payload <->
       exists i, 0 <= i < Pak.num_entries overlong_pak /\
         Pak.name overlong_pak i = name /\
         payload = slice overlong_pak (Pak.offset overlong_pak i)
                     (Pak.offset overlong_pak i + Pak.size overlong_pak i) /\
         forall j, i < j < Pak.num_entries overlong_pak ->
                   Pak.name overlong_pak j ≠ name).
Proof.
  destruct (read_pak_correct overlong_pak) as (entries & Hok & _ & Hval & _).
  - reflexivity.
  - vm_compute. discriminate.
  - intros i Hi. change (Pak.num_entries overlong_pak) with 1 in Hi.
    assert (i = 0) as -> by lia. vm_compute. discriminate.
  - exists entries. split; [exact Hok|exact Hval].
Defined.

Lemma dict_of_size {V} (kvs : list (pystr * V)) :
  (size (dict_of kvs) <= length kvs)%nat.
Proof.
  induction kvs as [|kv kvs IH] using rev_ind; [done|].
  rewrite dict_of_snoc, length_app, map_size_insert. simpl.
  destruct (dict_of kvs !! kv.1); simpl; lia.
Qed.

(** A directory size that is no multiple of 64 is not refused: with a
    directory size of 65 the reader returns the entry of the one whole
    record. *)
Lemma read_pak_dir_size_counterexample :
  Pak.dir_size odd_dir_pak = 65 /\
  65 mod 64 ≠ 0 /\
  (entries ← read_pak odd_dir_pak;
   Ok (size entries, entries !! str_of "a"))
  = Ok (1%nat, Some (bytes_of "ACK")).
Proof.
  split; [vm_compute; reflexivity|]. split; [vm_compute; discriminate|].
  vm_compute. reflexivity.
Qed.

(** C6, amended. The reader does not check the directory size against
    the record size: it reads [dir_size / 64] records, rounded down, and
    leaves the remaining [dir_size mod 64] bytes unread.  It succeeds on
    every file with the magic, the header and that many whole records,
    and a successful read returns the names of exactly these records, at
    most [dir_size / 64] entries. *)
Theorem read_pak_dir_size_floor (file : bytes) :
  (slice file 0 4 = bytes_of "PACK" ->
   12 <= len file ->
   (forall i, 0 <= i < Pak.dir_size file / 64 ->
      Pak.dir_offset file + 64 * i + 64 <= len file) ->
   exists entries, read_pak file = Ok entries) /\
  (forall entries,
     read_pak file = Ok entries ->
     64 * (Pak.dir_size file / 64) <= Pak.dir_size file
       < 64 * (Pak.dir_size file / 64) + 64 /\
     (forall i, 0 <= i < Pak.dir_size file / 64 ->
        Pak.dir_offset file + 64 * i + 64 <= len file) /\
     (forall name,
        is_Some (entries !! name) <->
        exists i, 0 <= i < Pak.dir_size file / 64 /\ Pak.name file i = name) /\
     Z.of_nat (size entries) <= Pak.dir_size file / 64).
Proof.
  split.
  - intros Hmagic Hlen Hin. eexists. by apply read_pak_Ok_iff.
  - intros entries Hok.
    pose proof (u32_at_range file 8) as Hsz. fold (Pak.dir_size file) in Hsz.
    split; [|split; [|split]].
    + pose proof (Z.mul_div_le (Pak.dir_size file) 64).
      pose proof (Z.mul_succ_div_gt (Pak.dir_size file) 64). lia.
    + by apply read_pak_Ok_iff in Hok as (_ & _ & Hin & _).
    + intros name. apply (read_pak_is_Some _ _ _ Hok).
    + apply read_pak_Ok_iff in Hok as (_ & _ & _ & ->).
      pose proof (dict_of_size (Pak.entry file <$> seqZ 0 (Pak.num_entries file)))
        as Hle.
      rewrite length_fmap, length_seqZ in Hle.
      unfold Pak.num_entries in *.
      assert (0 <= Pak.dir_size file / 64) by (apply Z.div_pos; lia). lia.
Qed.

Lemma read_pak_dir_size_floor_witness :
  exists entries,
    read_pak odd_dir_pak = Ok entries /\
    Z.of_nat (size entries) <= Pak.dir_size odd_dir_pak / 64.
Proof.
  destruct (read_pak_dir_size_floor odd_dir_pak) as [Hsucc Hinv].
  destruct Hsucc as [entries Hok].
  - reflexivity.
  - vm_compute. discriminate.
  - intros i Hi. change (Pak.dir_size odd_dir_pak / 64) with 1 in Hi.
    assert (i = 0) as -> by lia. vm_compute. discriminate.
  - exists entries. split; [exact Hok|]. apply (Hinv entries Hok).
Defined.

(** ** The order of the conversion loop *)

Lemma str_leb_refl s : str_leb s s = true.
Proof.
  induction s as [|a s IH]; simpl; [done|].
  rewrite Z.ltb_irrefl, Z.eqb_refl. done.
Qed.

Lemma str_leb_total s t : str_leb s t = true \/ str_leb t s = true.
Proof.
  revert t. induction s as [|a s IH]; intros [|b t]; simpl; auto.
  destruct (Z.ltb_spec a b), (Z.ltb_spec b a); auto; try lia.
  assert (a = b) as -> by lia. rewrite Z.eqb_refl. apply IH.
Qed.

Lemma str_leb_trans s t u :
  str_leb s t = true -> str_leb t u = true -> str_leb s u = true.
Proof.
  revert t u. induction s as [|a s IH]; intros [|b t] [|c u]; simpl; auto;
    try done.
  destruct (Z.ltb_spec a b), (Z.ltb_spec b c), (Z.ltb_spec a c);
    try done; try lia;
    destruct (Z.eqb_spec a b), (Z.eqb_spec b c), (Z.eqb_spec a c);
    try done; try lia.
  apply IH.
Qed.

Lemma str_leb_antisym s t :
  str_leb s t = true -> str_leb t s = true -> s = t.
Proof.
  revert t. induction s as [|a s IH]; intros [|b t]; simpl; try done.
  destruct (Z.ltb_spec a b), (Z.ltb_spec b a),
    (Z.eqb_spec a b), (Z.eqb_spec b a); try done; try lia.
  subst b. intros Hst Hts. f_equal. by apply IH.
Qed.

#[global] Instance item_le_total {V} : Total (@item_le V).
Proof. intros a b. apply str_leb_total. Qed.

#[global] Instance item_le_trans {V} : Transitive (@item_le V).
Proof. intros a b c. apply str_leb_trans. Qed.

Lemma sorted_items_Permutation {V} (lumps : gmap pystr V) :
  sorted_items lumps ≡ₚ map_to_list lumps.
Proof. apply merge_sort_Permutation. Qed.


Lemma sorted_items_NoDup {V} (lumps : gmap pystr V) :
  NoDup (sorted_items lumps).*1.
Proof.
  rewrite sorted_items_Permutation. apply NoDup_fst_map_to_list.
Qed.

Lemma sorted_items_length {V} (lumps : gmap pystr V) :
  length (sorted_items lumps) = size lumps.
Proof.
  rewrite sorted_items_Permutation. apply length_map_to_list.
Qed.

Lemma elem_of_sorted_items {V} (lumps : gmap pystr V) name v :
  (name, v) ∈ sorted_items lumps <-> lumps !! name = Some v.
Proof.
  rewrite sorted_items_Permutation. apply elem_of_map_to_list.
Qed.

(** ** The conversion loop *)

Section Loop.
Context (env : Env) (output_dir : pystr) (palette : list rgba).

Local Abbreviation convert := (convert_lump env output_dir palette).
Local Abbreviation loop := (convert_items env output_dir palette).
Local Abbreviation output := (lump_output env output_dir palette).
Local Abbreviation outputs := (lump_outputs env output_dir palette).
Local Abbreviation line := (lump_line env output_dir palette).


(** What an iteration does to the counts and the files, whatever is
    printed. *)
Lemma convert_lump_inv st item st' r :
  convert st item = (st', r) ->
  count st <= count st' /\ skipped st <= skipped st' /\
  match output item with
  | Some (out_path, png) =>
      count st' = count st + 1 /\ files st' = <[out_path := png]> (files st)
  | None =>
      count st' = count st /\ files st' = files st /\
      (r = None -> skipped st' = skipped st + 1)
  end.
Proof.
  destruct item as [name [lump_type data]].
  unfold convert_lump, try_convert, lump_output, skip_lump.
  destruct (decide (lump_type ≠ TYP_QPIC)), (decide (lump_type = TYP_QPIC));
    try done.
  { intros [= <- <-]. simpl. split_and!; (lia || done). }
  destruct (qpic_to_image env data palette) as [img|err].
  - simpl. destruct (save env img _) as [png|err].
    + destruct (print env (Converted _ _ _ _)).
      * destruct (print env (Failed _ _)); intros [= <- <-]; simpl; split_and!; (lia || done).
      * intros [= <- <-]. simpl. split_and!; (lia || done).
    + destruct (print env (Failed _ _)); intros [= <- <-]; simpl; split_and!; (lia || done).
  - destruct (print env (Failed _ _)); intros [= <- <-]; simpl; split_and!; (lia || done).
Qed.

Lemma outputs_cons item items :
  outputs (item :: items)
  = match output item with
    | Some out => out :: outputs items
    | None => outputs items
    end.
Proof. done. Qed.

Lemma outputs_app items1 items2 :
  outputs (items1 ++ items2) = outputs items1 ++ outputs items2.
Proof. apply omap_app. Qed.

Lemma len_outputs_le items : len (outputs items) <= len items.
Proof.
  induction items as [|item items IH]; [done|].
  rewrite outputs_cons. destruct (output item); rewrite !len_cons; lia.
Qed.

Lemma convert_items_cons item items st :
  loop (item :: items) st
  = match convert st item with
    | (st', None) => loop items st'
    | (st', Some e) => (st', Some e)
    end.
Proof. done. Qed.

Lemma convert_items_app items1 : forall items2 st,
  loop (items1 ++ items2) st
  = match loop items1 st with
    | (st', None) => loop items2 st'
    | (st', Some e) => (st', Some e)
    end.
Proof.
  induction items1 as [|item items1 IH]; intros items2 st; [done|].
  rewrite <- app_comm_cons, !convert_items_cons.
  destruct (convert st item) as [st' [e|]]; [done|]. apply IH.
Qed.


Lemma lines_printed_app items1 items2 :
  lines_printed env output_dir palette (items1 ++ items2) <->
  lines_printed env output_dir palette items1 /\
  lines_printed env output_dir palette items2.
Proof.
  unfold lines_printed. split.
  - intros Hall. split; intros item m Hin; apply Hall, elem_of_app; auto.
  - intros [H1 H2] item m Hin.
    apply elem_of_app in Hin as [Hin|Hin]; [by apply H1|by apply H2].
Qed.


(** Whatever is printed, a loop that reaches its end has counted and
    assigned every file it saved, and counted every other record as
    skipped at least once. *)
Lemma convert_items_inv items : forall st st' r,
  loop items st = (st', r) ->
  count st <= count st' /\ skipped st <= skipped st' /\
  (r = None ->
   count st' = count st + len (outputs items) /\
   skipped st + (len items - len (outputs items)) <= skipped st' /\
   files st'
   = foldl (fun m kv => <[kv.1 := kv.2]> m) (files st) (outputs items)).
Proof.
  induction items as [|item items IH]; intros st st' r.
  - intros [= <- <-]. unfold len. simpl. split; [lia|]. split; [lia|].
    intros _. split; [lia|]. split; [lia|done].
  - rewrite convert_items_cons.
    destruct (convert st item) as [st1 [e|]] eqn:Hstep.
    + intros [= <- <-].
      apply convert_lump_inv in Hstep as (? & ? & _). done.
    + intros Hrest. apply convert_lump_inv in Hstep as (Hc & Hs & Hout).
      apply IH in Hrest as (Hc' & Hs' & Hend).
      split; [lia|]. split; [lia|]. intros ->.
      destruct Hend as (Hcount & Hskip & Hfiles); [done|].
      rewrite outputs_cons.
      destruct (output item) as [[out_path png]|].
      * destruct Hout as [Hc1 Hf1]. rewrite !len_cons. simpl.
        rewrite Hfiles, Hf1. split; [lia|]. split; [lia|done].
      * destruct Hout as (Hc1 & Hf1 & Hs1). rewrite !len_cons.
        rewrite Hfiles, Hf1, Hs1 in * by done.
        split; [lia|]. split; [lia|done].
Qed.






End Loop.




(** The sample archive: three bitmap records and two others give three
    files written and two records skipped; with one more, truncated,
    bitmap record the same three files are written and three records
    skipped.  The fourth file is the archive. *)
Example main_sample_counts :
  summary (main sample_env sample_argv sample_files) = Some (3, 2, 4%nat) /\
  summary (main sample_env sample_argv {[ str_of "pak0.pak" := faulty_pak ]})
  = Some (3, 3, 4%nat).
Proof. split; vm_compute; reflexivity. Qed.

(** ** Running twice *)

(** Assigning files in order is a left-biased union with the dict of the
    assignments. *)
Lemma foldl_insert_union {V} (kvs : list (pystr * V)) (fs : gmap pystr V) :
  foldl (fun m kv => <[kv.1 := kv.2]> m) fs kvs = dict_of kvs ∪ fs.
Proof.
  induction kvs as [|kv kvs IH] using rev_ind.
  - unfold dict_of. simpl. by rewrite (left_id_L ∅ (∪)).
  - by rewrite foldl_snoc, dict_of_snoc, IH, insert_union_l.
Qed.

(** A loop that reaches its end has written the files of its records
    over the files that were there, and counted them. *)
Lemma convert_lumps_end env output_dir palette lumps fs st :
  convert_lumps env output_dir palette lumps fs = (st, None) ->
  let written := lump_outputs env output_dir palette (sorted_items lumps) in
  count st = len written /\
  Z.of_nat (size lumps) - len written <= skipped st /\
  files st = dict_of written ∪ fs.
Proof.
  intros Hrun written. unfold convert_lumps in Hrun.
  apply convert_items_inv in Hrun as (_ & _ & Hend).
  destruct Hend as (Hcount & Hskip & Hfiles); [done|]. simpl in *.
  pose proof (sorted_items_length lumps) as Hn.
  assert (len (sorted_items lumps) = Z.of_nat (size lumps)) as Hlen
    by (unfold len; by rewrite Hn).
  rewrite Hlen in Hskip.
  split; [done|]. split; [subst written; lia|]. rewrite Hfiles. apply foldl_insert_union.
Qed.









(** ** Failures of the readers *)

Lemma unpack_II_Raise buf e : unpack_II buf = Raise e -> e = StructError.
Proof.
  unfold unpack_II. do 8 (destruct buf as [|? buf]; [by intros [= <-]|]).
  destruct buf; [done|by intros [= <-]].
Qed.

Lemma unpack_from_IIIBb_Raise data off e :
  unpack_from_IIIBb data off = Raise e -> e = StructError.
Proof.
  unfold unpack_from_IIIBb.
  destruct (slice data off (off + 14)) as [|? buf]; [by intros [= <-]|].
  do 13 (destruct buf as [|? buf]; [by intros [= <-]|]).
  destruct buf; [done|by intros [= <-]].
Qed.

Lemma for_each_Raise {A S} (P : exn -> Prop) (body : A -> S -> result S) xs :
  (forall x s e, body x s = Raise e -> P e) ->
  forall s e, for_each xs body s = Raise e -> P e.
Proof.
  intros Hbody. induction xs as [|x xs IH]; intros s e; simpl; [done|].
  destruct (body x s) as [s'|e'] eqn:Hx; simpl.
  - apply IH.
  - intros [= <-]. by eapply Hbody.
Qed.

Lemma read_pak_entry_Raise file entries p e :
  read_pak_entry file entries p = Raise e -> e = StructError.
Proof.
  cbv [read_pak_entry mbind fileM_bind f_read f_lift f_tell f_seek mret fileM_ret].
  destruct (unpack_II _) as [[offset size]|e'] eqn:Hbuf; [done|].
  intros [= <-]. by eapply unpack_II_Raise.
Qed.

Lemma read_pak_loop_Raise file n : forall entries p e,
  read_pak_loop file n entries p = Raise e -> e = StructError.
Proof.
  induction n as [|n IH]; intros entries p e; simpl; [done|].
  unfold mbind, fileM_bind.
  destruct (read_pak_entry file entries p) as [[entries' p']|e'] eqn:Hent.
  - apply IH.
  - intros [= <-]. by eapply read_pak_entry_Raise.
Qed.

Lemma read_pak_bad_magic file :
  slice file 0 4 ≠ bytes_of "PACK" ->
  read_pak file = Raise (ValueError NotAPak).
Proof.
  intros Hm. unfold read_pak, read_pak_body.
  cbv [mbind fileM_bind f_read f_raise]. rewrite Z.add_0_l.
  by rewrite decide_True by done.
Qed.

Lemma read_pak_Raise_magic file e :
  slice file 0 4 = bytes_of "PACK" ->
  read_pak file = Raise e -> e = StructError.
Proof.
  intros Hm. unfold read_pak, read_pak_body.
  cbv [mbind fileM_bind f_read f_lift f_seek f_raise]. rewrite Z.add_0_l.
  rewrite decide_False by (by intros ?).
  destruct (unpack_II _) as [[dir_offset dir_size]|e'] eqn:Hbuf.
  - destruct (read_pak_loop _ _ _ _) as [[entries p]|e'] eqn:Hloop; [done|].
    intros [= <-]. by eapply read_pak_loop_Raise.
  - intros [= <-]. by eapply unpack_II_Raise.
Qed.

Lemma pak_records_in_range file :
  (forall i, 0 <= i < Pak.num_entries file ->
     Pak.record file i + 64 <= len file) <->
  (Pak.num_entries file <= 0 \/
   Pak.dir_offset file + 64 * Pak.num_entries file <= len file).
Proof.
  unfold Pak.record. split.
  - intros Hin. destruct (decide (Pak.num_entries file <= 0)); [by left|right].
    specialize (Hin (Pak.num_entries file - 1)). lia.
  - intros [Hn|Hall] i Hi; lia.
Qed.

(** X1. [read_pak] raises the not-a-PAK [ValueError] exactly when the
    first four bytes are not the magic (a shorter file included); with
    the magic it raises [struct.error] exactly when the header is cut
    or the file ends before the last directory record does; it raises
    nothing else. *)
Theorem read_pak_errors (file : bytes) :
  (read_pak file = Raise (ValueError NotAPak)
   <-> slice file 0 4 ≠ bytes_of "PACK") /\
  (read_pak file = Raise StructError
   <-> slice file 0 4 = bytes_of "PACK" /\
       (len file < 12 \/
        (0 < Pak.num_entries file /\
         len file < Pak.dir_offset file + 64 * Pak.num_entries file))) /\
  (forall e, read_pak file = Raise e ->
     e = ValueError NotAPak \/ e = StructError).
Proof.
  destruct (decide (slice file 0 4 = bytes_of "PACK")) as [Hm|Hm].
  - split; [|split].
    + split; [|done]. intros Herr.
      by pose proof (read_pak_Raise_magic _ _ Hm Herr).
    + split.
      * intros Herr. split; [done|].
        destruct (decide (len file < 12)) as [|Hlen]; [by left|right].
        destruct (decide (0 < Pak.num_entries file /\
                          len file < Pak.dir_offset file
                                     + 64 * Pak.num_entries file))
          as [|Hin]; [done|exfalso].
        assert (read_pak file
                = Ok (dict_of (Pak.entry file <$> seqZ 0 (Pak.num_entries file))))
          as Hok.
        { apply read_pak_Ok_iff. split; [done|]. split; [lia|].
          split; [|done]. apply pak_records_in_range. lia. }
        congruence.
      * intros [_ Hbad].
        destruct (read_pak file) as [entries|e] eqn:Hread.
        -- apply read_pak_Ok_iff in Hread as (_ & Hlen & Hin & _).
           apply pak_records_in_range in Hin. lia.
        -- f_equal. by eapply read_pak_Raise_magic.
    + intros e Herr. right. by eapply read_pak_Raise_magic.
  - pose proof (read_pak_bad_magic file Hm) as Herr. split; [|split].
    + done.
    + split; [congruence|]. by intros [? _].
    + intros e He. left. congruence.
Qed.

(** X2. With a directory size below 64 no record is read: the result is
    the empty dict wherever the directory offset points. *)
Theorem read_pak_empty_directory (file : bytes) :
  slice file 0 4 = bytes_of "PACK" ->
  12 <= len file ->
  Pak.dir_size file < 64 ->
  read_pak file = Ok ∅.
Proof.
  intros Hm Hlen Hsz.
  pose proof (u32_at_range file 8) as Hr. fold (Pak.dir_size file) in Hr.
  assert (Pak.num_entries file = 0) as Hn
    by (unfold Pak.num_entries; apply Z.div_small; lia).
  apply read_pak_Ok_iff. rewrite Hn.
  split; [done|]. split; [done|]. split; [lia|done].
Qed.

Lemma read_pak_empty_directory_witness : read_pak empty_dir_pak = Ok ∅.
Proof.
  apply (read_pak_empty_directory empty_dir_pak).
  - reflexivity.
  - vm_compute. discriminate.
  - vm_compute. reflexivity.
Defined.

Lemma read_wad_bad_magic data :
  slice data 0 4 ≠ bytes_of "WAD2" ->
  read_wad data = Raise (ValueError (NotAWad2 (slice data 0 4))).
Proof. intros Hm. unfold read_wad. simpl. by rewrite decide_True by done. Qed.

Lemma read_wad_step_Raise data dir_offset i lumps e :
  read_wad_step data dir_offset i lumps = Raise e -> e = StructError.
Proof.
  unfold read_wad_step.
  destruct (unpack_from_IIIBb _ _) as [[[[[? ?] ?] ?] ?]|e'] eqn:Hrec; [done|].
  simpl. intros [= <-]. by eapply unpack_from_IIIBb_Raise.
Qed.

Lemma read_wad_Raise_magic data e :
  slice data 0 4 = bytes_of "WAD2" ->
  read_wad data = Raise e -> e = StructError.
Proof.
  intros Hm. unfold read_wad. simpl. rewrite decide_False by (by intros ?).
  unfold unpack_from_II.
  destruct (unpack_II _) as [[num_lumps dir_offset]|e'] eqn:Hhdr; simpl.
  - apply (for_each_Raise (fun e => e = StructError)).
    intros i lumps e'. apply read_wad_step_Raise.
  - intros [= <-]. by eapply unpack_II_Raise.
Qed.

Lemma wad_records_in_range data :
  (forall i, 0 <= i < Wad.num_lumps data ->
     Wad.record data i + 14 <= len data) <->
  (Wad.num_lumps data <= 0 \/
   Wad.dir_offset data + 32 * (Wad.num_lumps data - 1) + 14 <= len data).
Proof.
  unfold Wad.record. split.
  - intros Hin. destruct (decide (Wad.num_lumps data <= 0)); [by left|right].
    specialize (Hin (Wad.num_lumps data - 1)). lia.
  - intros [Hn|Hall] i Hi; lia.
Qed.

(** X3. [read_wad] raises the not-a-WAD2 [ValueError], carrying the
    first bytes of the buffer, exactly when these are not the magic; with
    the magic it raises [struct.error] exactly when the header is cut or
    the buffer ends before the fourteenth byte of the last directory
    record; it raises nothing else.  The name field of the last record
    need not be there. *)
Theorem read_wad_errors (data : bytes) :
  (read_wad data = Raise (ValueError (NotAWad2 (slice data 0 4)))
   <-> slice data 0 4 ≠ bytes_of "WAD2") /\
  (read_wad data = Raise StructError
   <-> slice data 0 4 = bytes_of "WAD2" /\
       (len data < 12 \/
        (0 < Wad.num_lumps data /\
         len data < Wad.dir_offset data + 32 * (Wad.num_lumps data - 1) + 14))) /\
  (forall e, read_wad data = Raise e ->
     e = ValueError (NotAWad2 (slice data 0 4)) \/ e = StructError).
Proof.
  destruct (decide (slice data 0 4 = bytes_of "WAD2")) as [Hm|Hm].
  - split; [|split].
    + split; [|done]. intros Herr.
      by pose proof (read_wad_Raise_magic _ _ Hm Herr).
    + split.
      * intros Herr. split; [done|].
        destruct (decide (len data < 12)) as [|Hlen]; [by left|right].
        destruct (decide (0 < Wad.num_lumps data /\
                          len data < Wad.dir_offset data
                                     + 32 * (Wad.num_lumps data - 1) + 14))
          as [|Hin]; [done|exfalso].
        assert (read_wad data
                = Ok (dict_of (Wad.entry data <$> seqZ 0 (Wad.num_lumps data))))
          as Hok.
        { apply read_wad_Ok_iff. split; [done|]. split; [lia|].
          split; [|done]. apply wad_records_in_range. lia. }
        congruence.
      * intros [_ Hbad].
        destruct (read_wad data) as [lumps|e] eqn:Hread.
        -- apply read_wad_Ok_iff in Hread as (_ & Hlen & Hin & _).
           apply wad_records_in_range in Hin. lia.
        -- f_equal. by eapply read_wad_Raise_magic.
    + intros e Herr. right. by eapply read_wad_Raise_magic.
  - pose proof (read_wad_bad_magic data Hm) as Herr. split; [|split].
    + done.
    + split; [congruence|]. by intros [? _].
    + intros e He. left. congruence.
Qed.

(** X4. A container that declares no records parses to the empty dict
    wherever its directory offset points. *)
Theorem read_wad_no_lumps (data : bytes) :
  slice data 0 4 = bytes_of "WAD2" ->
  12 <= len data ->
  Wad.num_lumps data = 0 ->
  read_wad data = Ok ∅.
Proof.
  intros Hm Hlen Hn. apply read_wad_Ok_iff. rewrite Hn.
  split; [done|]. split; [done|]. split; [lia|done].
Qed.

Lemma read_wad_no_lumps_witness : read_wad no_lumps_wad = Ok ∅.
Proof.
  apply (read_wad_no_lumps no_lumps_wad).
  - reflexivity.
  - vm_compute. discriminate.
  - vm_compute. reflexivity.
Defined.

(** ** The keys of the dicts *)

Lemma byte_Z_zero b : byte_Z b = 0 -> b = x00.
Proof.
  unfold byte_Z. intros Hb.
  assert (Byte.to_N b = 0%N) as Hn by lia.
  pose proof (Byte.of_to_N b) as Hof. rewrite Hn in Hof.
  simpl in Hof. congruence.
Qed.

Lemma before_nul_length raw : (length (before_nul raw) <= length raw)%nat.
Proof.
  induction raw as [|b raw IH]; simpl; [done|].
  destruct (decide (b = x00)); simpl; lia.
Qed.

Lemma before_nul_no_nul raw : Forall (fun b => b ≠ x00) (before_nul raw).
Proof.
  induction raw as [|b raw IH]; simpl; [constructor|].
  destruct (decide (b = x00)); [constructor|by constructor].
Qed.

(** A decoded and lowercased name is no longer than its field and made
    of the code points 1..127 other than A-Z and of U+FFFD. *)
Lemma key_shape raw :
  (length (lower (decode_name raw)) <= length raw)%nat /\
  Forall (fun c => (1 <= c <= 127 \/ c = 65533) /\ ~ (65 <= c <= 90))
    (lower (decode_name raw)).
Proof.
  unfold lower, decode_name, decode_ascii. split.
  - rewrite !length_map. apply before_nul_length.
  - rewrite !Forall_map. eapply Forall_impl; [apply before_nul_no_nul|].
    intros b Hb. simpl.
    pose proof (byte_Z_range b) as Hr.
    assert (byte_Z b ≠ 0) as Hnz by (intros H0; by apply byte_Z_zero in H0).
    unfold lower_char, decode_char.
    destruct (byte_Z b <? 128) eqn:E1;
      destruct (_ && _) eqn:E2; lia.
Qed.

Lemma lower_fixed s :
  Forall (fun c => ~ (65 <= c <= 90)) s -> lower s = s.
Proof.
  unfold lower. induction 1 as [|c s Hc _ IH]; simpl; [done|].
  rewrite IH. f_equal. unfold lower_char.
  destruct (_ && _) eqn:E; [lia|done].
Qed.

Lemma len_slice_le {A} (data : list A) lo (n : nat) :
  (length (slice data lo (lo + Z.of_nat n)) <= n)%nat.
Proof. unfold slice. rewrite length_take. lia. Qed.

(** X5. Every key of the dict [read_pak] returns has at most 56 code
    points, each of them 1..127 or U+FFFD, none an upper-case letter and
    none NUL; lowercasing a key again leaves it as it is. *)
Theorem read_pak_keys (file : bytes) (entries : gmap pystr bytes) (name : pystr) :
  read_pak file = Ok entries ->
  is_Some (entries !! name) ->
  (length name <= 56)%nat /\
  Forall (fun c => (1 <= c <= 127 \/ c = 65533) /\ ~ (65 <= c <= 90)) name /\
  lower name = name.
Proof.
  intros Hok Hin. apply (read_pak_is_Some _ _ _ Hok) in Hin as (i & _ & <-).
  unfold Pak.name.
  pose proof (key_shape (slice file (Pak.record file i) (Pak.record file i + 56)))
    as [Hlen Hchars].
  split; [|split].
  - etrans; [exact Hlen|]. apply (len_slice_le file _ 56).
  - done.
  - apply lower_fixed. eapply Forall_impl; [exact Hchars|]. by intros c [_ ?].
Qed.

Lemma read_pak_keys_witness :
  (length (str_of "a") <= 56)%nat /\
  Forall (fun c => (1 <= c <= 127 \/ c = 65533) /\ ~ (65 <= c <= 90))
    (str_of "a") /\
  lower (str_of "a") = str_of "a".
Proof.
  assert (read_pak odd_dir_pak = Ok {[ str_of "a" := bytes_of "ACK" ]}) as Hok
    by (vm_compute; reflexivity).
  apply (read_pak_keys odd_dir_pak _ (str_of "a") Hok).
  rewrite lookup_singleton_eq. by eexists.
Defined.

(** X6. Every key of the dict [read_wad] returns has at most 16 code
    points, each of them 1..127 or U+FFFD, none an upper-case letter and
    none NUL; lowercasing a key again leaves it as it is. *)
Theorem read_wad_keys (data : bytes) (lumps : gmap pystr (Z * bytes))
    (name : pystr) :
  read_wad data = Ok lumps ->
  is_Some (lumps !! name) ->
  (length name <= 16)%nat /\
  Forall (fun c => (1 <= c <= 127 \/ c = 65533) /\ ~ (65 <= c <= 90)) name /\
  lower name = name.
Proof.
  intros Hok Hin. apply read_wad_Ok_iff in Hok as (_ & _ & _ & ->).
  apply dict_of_records_is_Some in Hin as (i & _ & <-).
  unfold Wad.entry, Wad.name. simpl.
  pose proof (key_shape (slice data (Wad.record data i + 16)
                           (Wad.record data i + 32)))
    as [Hlen Hchars].
  split; [|split].
  - etrans; [exact Hlen|].
    replace (Wad.record data i + 32)
      with (Wad.record data i + 16 + Z.of_nat 16) by lia.
    apply len_slice_le.
  - done.
  - apply lower_fixed. eapply Forall_impl; [exact Hchars|]. by intros c [_ ?].
Qed.

Lemma read_wad_keys_witness :
  (length (str_of "a") <= 16)%nat /\
  Forall (fun c => (1 <= c <= 127 \/ c = 65533) /\ ~ (65 <= c <= 90))
    (str_of "a") /\
  lower (str_of "a") = str_of "a".
Proof.
  assert (read_wad high_type_wad = Ok {[ str_of "a" := (128, []) ]}) as Hok
    by (vm_compute; reflexivity).
  apply (read_wad_keys high_type_wad _ (str_of "a") Hok).
  rewrite lookup_singleton_eq. by eexists.
Defined.

(** ** The decoder on short and on long payloads *)

Lemma qpic_to_image_short env data palette :
  len data < 8 -> qpic_to_image env data palette = Raise StructError.
Proof.
  intros Hlen. unfold qpic_to_image, unpack_from_II.
  rewrite unpack_II_short; [done|].
  pose proof (len_slice data 0 (0 + 8)) as Hs. unfold len in *. lia.
Qed.

(** The decoder on a complete record. *)
Lemma qpic_to_image_complete env data palette :
  8 <= len data ->
  u32_at data 0 * u32_at data 4 <= len data - 8 ->
  qpic_to_image env data palette
  = (img ← Image_new env (u32_at data 0) (u32_at data 4);
     img_data ← list_comp (palette_get palette)
                  (slice data 8 (8 + u32_at data 0 * u32_at data 4));
     Ok (putdata img img_data)).
Proof.
  intros Hlen Hfit. rewrite qpic_to_image_unfold by done. simpl.
  pose proof (len_qpic_pixels data Hlen) as Hpx.
  destruct (_ <? _) eqn:E; [lia|done].
Qed.

Lemma qpic_to_image_Ok_inv env data palette img :
  qpic_to_image env data palette = Ok img ->
  8 <= len data /\ u32_at data 0 * u32_at data 4 <= len data - 8 /\
  u32_at data 0 <= INT_MAX /\ u32_at data 4 <= INT_MAX /\
  out_of_memory env (u32_at data 0) (u32_at data 4) = false.
Proof.
  intros Hok.
  destruct (decide (len data < 8)) as [Hshort|Hlen].
  { by rewrite qpic_to_image_short in Hok. }
  split; [lia|].
  destruct (decide (len data - 8 < u32_at data 0 * u32_at data 4)) as [Hbig|Hfit].
  { by rewrite qpic_to_image_truncated in Hok by lia. }
  split; [lia|].
  rewrite qpic_to_image_complete in Hok by lia.
  unfold Image_new in Hok. case_decide as Hdim; [done|].
  destruct (out_of_memory _ _ _); [done|]. lia.
Qed.

(** The exceptions of the decoder besides [ValueError]. *)
Lemma qpic_to_image_Raise env data palette e :
  qpic_to_image env data palette = Raise e ->
  (e = StructError /\ len data < 8) \/
  (8 <= len data /\
   ((len data - 8 < u32_at data 0 * u32_at data 4 /\
     e = ValueError (QpicTruncated (len data - 8)
                       (u32_at data 0 * u32_at data 4))) \/
    (u32_at data 0 * u32_at data 4 <= len data - 8 /\
     ((e = OverflowError /\
       (INT_MAX < u32_at data 0 \/ INT_MAX < u32_at data 4)) \/
      (e = MemoryError /\ u32_at data 0 <= INT_MAX /\
       u32_at data 4 <= INT_MAX /\
       out_of_memory env (u32_at data 0) (u32_at data 4) = true) \/
      (e = IndexError /\ u32_at data 0 <= INT_MAX /\
       u32_at data 4 <= INT_MAX /\
       out_of_memory env (u32_at data 0) (u32_at data 4) = false))))).
Proof.
  intros Herr.
  destruct (decide (len data < 8)) as [Hshort|Hlen].
  { rewrite qpic_to_image_short in Herr by done. left. by injection Herr as <-. }
  right. split; [lia|].
  destruct (decide (len data - 8 < u32_at data 0 * u32_at data 4)) as [Hbig|Hfit].
  { rewrite qpic_to_image_truncated in Herr by lia. left.
    by injection Herr as <-. }
  right. split; [lia|].
  rewrite qpic_to_image_complete in Herr by lia.
  unfold Image_new in Herr. case_decide as Hdim.
  { left. by injection Herr as <-. }
  right. destruct (out_of_memory _ _ _) eqn:Hmem.
  { left. injection Herr as <-. repeat split; (done || lia). }
  right. simpl in Herr.
  destruct (list_comp _ _) as [ys|e'] eqn:Hcomp; simpl in Herr; [done|].
  injection Herr as <-.
  apply list_comp_Raise in Hcomp as (b & _ & Hb).
  apply palette_get_Raise in Hb. repeat split; (done || lia).
Qed.

Local Ltac split_cases :=
  repeat match goal with
         | H : _ \/ _ |- _ => destruct H
         | H : _ /\ _ |- _ => destruct H
         end;
  try done; try lia; try (split_and!; (done || lia)).

(** X7. A payload of fewer than 8 bytes makes the decoder raise
    [struct.error], not [ValueError], and only such a payload does.  A
    complete record whose width or height exceeds 2^31 - 1 raises
    [OverflowError], one whose image cannot be allocated [MemoryError],
    and nothing else raises these.  With a 256-entry table the decoder
    returns an image exactly when the payload has the 8-byte header and
    the [width * height] bytes after it, both dimensions are at most
    2^31 - 1 and the image can be allocated. *)
Theorem qpic_to_image_outcomes (env : Env) (data : bytes)
    (palette : list rgba) :
  let width := u32_at data 0 in
  let height := u32_at data 4 in
  let complete := 8 <= len data /\ width * height <= len data - 8 in
  (qpic_to_image env data palette = Raise StructError <-> len data < 8) /\
  (qpic_to_image env data palette = Raise OverflowError <->
   complete /\ (INT_MAX < width \/ INT_MAX < height)) /\
  (qpic_to_image env data palette = Raise MemoryError <->
   complete /\ width <= INT_MAX /\ height <= INT_MAX /\
   out_of_memory env width height = true) /\
  (length palette = 256%nat ->
   ((exists img, qpic_to_image env data palette = Ok img) <->
    complete /\ width <= INT_MAX /\ height <= INT_MAX /\
    out_of_memory env width height = false)).
Proof.
  intros width height complete. subst width height complete.
  split; [|split; [|split]].
  - split; [|apply qpic_to_image_short].
    intros Herr. apply qpic_to_image_Raise in Herr. split_cases.
  - split.
    + intros Herr. apply qpic_to_image_Raise in Herr. split_cases.
    + intros [[Hlen Hfit] Hbig].
      by apply (qpic_to_image_refused env data palette Hlen Hfit).
  - split.
    + intros Herr. apply qpic_to_image_Raise in Herr. split_cases.
    + intros ([Hlen Hfit] & Hw & Hh & Hmem).
      by apply (qpic_to_image_refused env data palette Hlen Hfit).
  - intros Hpal. split.
    + intros [img Hok]. apply qpic_to_image_Ok_inv in Hok. split_cases.
    + intros ([Hlen Hfit] & Hw & Hh & Hmem).
      destruct (qpic_to_image_Ok env data palette Hlen Hfit Hpal Hw Hh Hmem)
        as (px & Hok & _).
      by eexists.
Qed.

Lemma qpic_to_image_outcomes_witness :
  ((exists img, qpic_to_image sample_env sample_qpic sample_palette = Ok img)
   <-> (8 <= len sample_qpic /\
        u32_at sample_qpic 0 * u32_at sample_qpic 4 <= len sample_qpic - 8) /\
       u32_at sample_qpic 0 <= INT_MAX /\ u32_at sample_qpic 4 <= INT_MAX /\
       out_of_memory sample_env (u32_at sample_qpic 0) (u32_at sample_qpic 4)
       = false) /\
  ((exists img, qpic_to_image sample_env huge_qpic sample_palette = Ok img)
   <-> (8 <= len huge_qpic /\
        u32_at huge_qpic 0 * u32_at huge_qpic 4 <= len huge_qpic - 8) /\
       u32_at huge_qpic 0 <= INT_MAX /\ u32_at huge_qpic 4 <= INT_MAX /\
       out_of_memory sample_env (u32_at huge_qpic 0) (u32_at huge_qpic 4)
       = false).
Proof.
  split.
  - apply (qpic_to_image_outcomes sample_env sample_qpic sample_palette).
    reflexivity.
  - apply (qpic_to_image_outcomes sample_env huge_qpic sample_palette).
    reflexivity.
Defined.

Lemma byte_at_app_l data extra k :
  0 <= k < len data -> byte_at (data ++ extra) k = byte_at data k.
Proof.
  intros Hk. unfold byte_at. apply lookup_total_app_l. unfold len in Hk. lia.
Qed.

Lemma u32_at_app_l data extra off :
  0 <= off -> off + 4 <= len data ->
  u32_at (data ++ extra) off = u32_at data off.
Proof.
  intros Hlo Hhi. unfold u32_at. by rewrite !byte_at_app_l by lia.
Qed.

Lemma slice_app_l {A} (data extra : list A) lo hi :
  0 <= lo -> hi <= len data -> slice (data ++ extra) lo hi = slice data lo hi.
Proof.
  intros Hlo Hhi. unfold slice, len in *.
  destruct (decide (lo <= hi)) as [Hle|Hgt].
  - rewrite drop_app_le by lia. apply take_app_le.
    rewrite length_drop. lia.
  - replace (Z.to_nat (hi - lo)) with 0%nat by lia. done.
Qed.

(** X8. The decoder reads the 8-byte header and the [width * height]
    bytes after it and nothing else: bytes that follow a complete record
    do not change the result. *)
Theorem qpic_to_image_ignores_trailing (env : Env) (data extra : bytes)
    (palette : list rgba) :
  8 <= len data ->
  u32_at data 0 * u32_at data 4 <= len data - 8 ->
  qpic_to_image env (data ++ extra) palette = qpic_to_image env data palette.
Proof.
  intros Hlen Hfit.
  pose proof (len_nonneg extra) as Hextra.
  rewrite !qpic_to_image_unfold by (rewrite ?len_app; lia). simpl.
  rewrite !u32_at_app_l by lia.
  by rewrite slice_app_l by lia.
Qed.

Lemma qpic_to_image_ignores_trailing_witness :
  qpic_to_image sample_env (sample_qpic ++ [x01; x02; x03]) sample_palette
  = qpic_to_image sample_env sample_qpic sample_palette.
Proof.
  apply (qpic_to_image_ignores_trailing sample_env sample_qpic [x01; x02; x03]
           sample_palette); vm_compute; discriminate.
Defined.

(** ** The color table on long inputs, and in the decoder *)

Lemma palette_entry_app_l data extra i :
  0 <= i -> 3 * i + 3 <= len data ->
  palette_entry (data ++ extra) i = palette_entry data i.
Proof.
  intros Hi Hlen. unfold palette_entry. by rewrite !byte_at_app_l by lia.
Qed.

(** X9. The loader reads the first 768 bytes and nothing else: bytes
    after them do not change the color table. *)
Theorem read_palette_ignores_trailing (data extra : bytes) :
  768 <= len data ->
  read_palette (data ++ extra) = read_palette data.
Proof.
  intros Hlen. pose proof (len_nonneg extra) as Hextra.
  rewrite !read_palette_Ok by (rewrite ?len_app; lia). f_equal.
  apply list_eq. intros k. rewrite !list_lookup_fmap.
  destruct (seqZ 0 256 !! k) as [i|] eqn:Hi; simpl; [|done].
  apply lookup_seqZ in Hi as [-> Hk].
  by rewrite palette_entry_app_l by lia.
Qed.

Lemma read_palette_ignores_trailing_witness :
  read_palette (sample_palette_lmp ++ [x01; x02]) = read_palette sample_palette_lmp.
Proof.
  apply (read_palette_ignores_trailing sample_palette_lmp [x01; x02]).
  vm_compute. discriminate.
Defined.

Lemma read_palette_Ok_inv data palette :
  read_palette data = Ok palette ->
  768 <= len data /\ palette = palette_entry data <$> seqZ 0 256.
Proof.
  intros Hok. destruct (decide (768 <= len data)) as [Hlen|Hshort].
  - rewrite read_palette_Ok in Hok by done. split; [done|congruence].
  - unfold read_palette in Hok. destruct (len data <? 768) eqn:E; [done|lia].
Qed.

Lemma byte_Z_inj a b : byte_Z a = byte_Z b -> a = b.
Proof.
  unfold byte_Z. intros Hab.
  assert (Byte.to_N a = Byte.to_N b) as Hn by lia.
  pose proof (Byte.of_to_N a) as Ha. pose proof (Byte.of_to_N b) as Hb.
  congruence.
Qed.

(** X10. With the color table [read_palette] makes of [table], every
    pixel of a decoded image has the red, green and blue bytes of the
    table entry its index byte selects, and it is transparent (alpha 0)
    exactly when the index byte is 0xff; every other pixel is opaque. *)
Theorem decoded_pixels (env : Env) (table data : bytes) (palette : list rgba)
    (img : Image) :
  read_palette table = Ok palette ->
  qpic_to_image env data palette = Ok img ->
  len (img_pixels img) = img_width img * img_height img /\
  forall k, 0 <= k < img_width img * img_height img ->
    let index := byte_Z (byte_at data (8 + k)) in
    exists alpha,
      img_pixels img !! Z.to_nat k
      = Some (byte_Z (byte_at table (3 * index)),
              byte_Z (byte_at table (3 * index + 1)),
              byte_Z (byte_at table (3 * index + 2)), alpha) /\
      (alpha = 0 <-> byte_at data (8 + k) = xff) /\
      (alpha = 255 <-> byte_at data (8 + k) ≠ xff).
Proof.
  intros Htable Himg.
  apply read_palette_Ok_inv in Htable as [Htlen ->].
  pose proof (qpic_to_image_Ok_inv _ _ _ _ Himg)
    as (Hlen & Hfit & Hw & Hh & Hmem).
  assert (length (palette_entry table <$> seqZ 0 256) = 256%nat) as Hpal
    by (by rewrite length_fmap, length_seqZ).
  destruct (qpic_to_image_Ok env data _ Hlen Hfit Hpal Hw Hh Hmem)
    as (pixels & Hok & Hpx).
  rewrite Hok in Himg. injection Himg as <-. simpl.
  split.
  { pose proof (Forall2_length _ _ _ Hpx) as Hn.
    pose proof (len_qpic_pixels data Hlen). unfold len in *. lia. }
  intros k Hk. cbv zeta.
  pose proof (qpic_pixel_lookup data k Hlen Hk Hfit) as Hb.
  destruct (Forall2_lookup_l _ _ _ _ _ Hpx Hb) as (px & Hpxk & Hget).
  pose proof (byte_Z_range (byte_at data (8 + k))) as Hr.
  rewrite list_lookup_fmap, lookup_seqZ_lt in Hget by lia.
  rewrite Z.add_0_l, Z2Nat.id in Hget by lia. simpl in Hget.
  injection Hget as <-.
  unfold palette_entry. eexists. split; [exact Hpxk|].
  assert (byte_Z (byte_at data (8 + k)) = 255 <-> byte_at data (8 + k) = xff)
    as [Hff1 Hff2].
  { split; [apply (byte_Z_inj _ xff)|by intros ->]. }
  case_decide as Hi.
  - split; split; intros; auto; try done; try lia. by exfalso; auto.
  - split; split; intros; auto; try done; try lia. by exfalso; auto.
Qed.

Lemma decoded_pixels_witness :
  len [(255, 0, 0, 255); (7, 7, 7, 0)] = 2 * 1 /\
  forall k, 0 <= k < 2 * 1 ->
    let index := byte_Z (byte_at sample_qpic (8 + k)) in
    exists alpha,
      [(255, 0, 0, 255); (7, 7, 7, 0)] !! Z.to_nat k
      = Some (byte_Z (byte_at sample_palette_lmp (3 * index)),
              byte_Z (byte_at sample_palette_lmp (3 * index + 1)),
              byte_Z (byte_at sample_palette_lmp (3 * index + 2)), alpha) /\
      (alpha = 0 <-> byte_at sample_qpic (8 + k) = xff) /\
      (alpha = 255 <-> byte_at sample_qpic (8 + k) ≠ xff).
Proof.
  assert (read_palette sample_palette_lmp = Ok sample_table) as Htable
    by (vm_compute; reflexivity).
  assert (qpic_to_image sample_env sample_qpic sample_table
          = Ok {| img_width := 2; img_height := 1;
                  img_pixels := [(255, 0, 0, 255); (7, 7, 7, 0)] |}) as Himg
    by (vm_compute; reflexivity).
  exact (decoded_pixels sample_env sample_palette_lmp sample_qpic sample_table _
           Htable Himg).
Defined.

(** ** The ways [main] ends *)

Lemma read_palette_short data :
  len data < 768 ->
  read_palette data = Raise (ValueError (PaletteTooSmall (len data))).
Proof.
  intros Hlen. unfold read_palette. destruct (len data <? 768) eqn:E; [done|lia].
Qed.

Lemma summarize_cases env output_dir r :
  summarize env output_dir r = Done r.1 \/
  exists e, summarize env output_dir r = Aborted e r.1.
Proof.
  destruct r as [st [e|]]; simpl; [right; by exists e|].
  destruct (print env _) as [e|]; [right; by exists e|by left].
Qed.

Local Ltac decide_outcome :=
  repeat first [split | intro];
  repeat match goal with
         | H : ex _ |- _ => destruct H
         | H : _ /\ _ |- _ => destruct H
         | H : _ \/ _ |- _ => destruct H
         end;
  simplify_eq; try done; try lia; try congruence; eauto 15 with lia.

(** X11. Run on an archive that opens, and with an output stream that
    takes the lines printed before the loop, [main] reaches the
    conversion loop exactly when the archive parses, holds a color table
    of at least 768 bytes under [gfx/palette.lmp] and a nested container
    under [gfx.wad] that parses, and the output directory can be made.
    It exits with status 1 exactly when the archive parses and the color
    table is missing, or the color table is long enough and the nested
    container is missing.  Otherwise it ends with the exception of the
    reader that failed or of [mkdir]; a color table that is too short
    raises even when the nested container is missing as well. *)
Theorem main_outcomes (env : Env) (prog pak_path : pystr) (rest : list pystr)
    (fs : gmap pystr bytes) (pak : bytes) :
  let argv := prog :: pak_path :: rest in
  let output_dir := default (str_of "ui/img/sbar") (head rest) in
  open_rb env pak_path fs = Ok pak ->
  print env (Reading pak_path) = None ->
  (forall n, print env (PakEntries n) = None) ->
  print env (NotFound (str_of "gfx/palette.lmp")) = None ->
  print env PaletteLoaded = None ->
  print env (NotFound (str_of "gfx.wad")) = None ->
  (forall n, print env (WadLumps n) = None) ->
  (forall entries table wad lumps,
     read_pak pak = Ok entries ->
     entries !! str_of "gfx/palette.lmp" = Some table ->
     768 <= len table ->
     entries !! str_of "gfx.wad" = Some wad ->
     read_wad wad = Ok lumps ->
     mkdir env output_dir fs = None ->
     main env argv fs
     = summarize env output_dir
         (convert_lumps env output_dir (palette_entry table <$> seqZ 0 256)
            lumps fs)) /\
  ((exists st, main env argv fs = Done st \/
               exists e, main env argv fs = Aborted e st) ->
   exists entries table wad lumps,
     read_pak pak = Ok entries /\
     entries !! str_of "gfx/palette.lmp" = Some table /\
     768 <= len table /\
     entries !! str_of "gfx.wad" = Some wad /\
     read_wad wad = Ok lumps /\
     mkdir env output_dir fs = None) /\
  (forall code,
     main env argv fs = Exit code <->
     code = 1 /\
     exists entries,
       read_pak pak = Ok entries /\
       (entries !! str_of "gfx/palette.lmp" = None \/
        exists table,
          entries !! str_of "gfx/palette.lmp" = Some table /\
          768 <= len table /\
          entries !! str_of "gfx.wad" = None)) /\
  (forall e,
     main env argv fs = Uncaught e <->
     read_pak pak = Raise e \/
     exists entries table,
       read_pak pak = Ok entries /\
       entries !! str_of "gfx/palette.lmp" = Some table /\
       ((len table < 768 /\ e = ValueError (PaletteTooSmall (len table))) \/
        (768 <= len table /\
         exists wad,
           entries !! str_of "gfx.wad" = Some wad /\
           (read_wad wad = Raise e \/
            exists lumps,
              read_wad wad = Ok lumps /\
              mkdir env output_dir fs = Some e)))).
Proof.
  intros argv output_dir Hopen H1 H2 H3 H4 H5 H6.
  assert (main env argv fs
          = or_raise (read_pak pak) (fun pak_entries =>
              match pak_entries !! str_of "gfx/palette.lmp" with
              | None => Exit 1
              | Some palette_data =>
                  or_raise (read_palette palette_data) (fun palette =>
                    match pak_entries !! str_of "gfx.wad" with
                    | None => Exit 1
                    | Some wad_data =>
                        or_raise (read_wad wad_data) (fun lumps =>
                          match mkdir env output_dir fs with
                          | Some e => Uncaught e
                          | None =>
                              summarize env output_dir
                                (convert_lumps env output_dir palette lumps fs)
                          end)
                    end)
              end)) as Hmain.
  { subst argv. unfold main, print_then. fold output_dir.
    rewrite H1, Hopen. unfold mbind, result_bind, or_raise.
    destruct (read_pak pak) as [entries|]; [|done]. rewrite H2.
    destruct (entries !! str_of "gfx/palette.lmp") as [table|];
      [|by rewrite H3].
    destruct (read_palette table) as [palette|]; [|done]. rewrite H4.
    destruct (entries !! str_of "gfx.wad") as [wad|]; [|by rewrite H5].
    destruct (read_wad wad) as [lumps|]; [|done]. by rewrite H6. }
  rewrite Hmain. clear Hmain. unfold or_raise.
  destruct (read_pak pak) as [entries|e0] eqn:Hpak; [|decide_outcome].
  destruct (entries !! str_of "gfx/palette.lmp") as [table|] eqn:Hp;
    [|decide_outcome].
  destruct (decide (768 <= len table)) as [Hlen|Hlen];
    [|rewrite read_palette_short by lia; decide_outcome].
  rewrite read_palette_Ok by done.
  destruct (entries !! str_of "gfx.wad") as [wad|] eqn:Hw; [|decide_outcome].
  destruct (read_wad wad) as [lumps|e1] eqn:Hwad; [|decide_outcome].
  destruct (mkdir env output_dir fs) as [e2|] eqn:Hmk; [decide_outcome|].
  destruct (summarize_cases env output_dir
              (convert_lumps env output_dir (palette_entry table <$> seqZ 0 256)
                 lumps fs)) as [Hend|[e3 Hend]];
    rewrite Hend; decide_outcome.
Qed.

Lemma main_outcomes_witness :
  main sample_env sample_argv sample_files
  = summarize sample_env (str_of "out")
      (convert_lumps sample_env (str_of "out")
         (palette_entry sample_palette_lmp <$> seqZ 0 256) sample_lumps
         sample_files) /\
  main sample_env sample_argv
    (<[str_of "out" := []]> sample_files) = Uncaught (OSError 17) /\
  main sample_env sample_argv {[ str_of "pak0.pak" := no_wad_pak ]} = Exit 1.
Proof.
  split; [|split].
  - pose proof (main_outcomes sample_env (str_of "extract-wad.py")
                  (str_of "pak0.pak") [str_of "out"] sample_files sample_pak
                  eq_refl eq_refl (fun _ => eq_refl) eq_refl eq_refl eq_refl
                  (fun _ => eq_refl))
      as (Hloop & _).
    eapply (Hloop _ sample_palette_lmp sample_wad sample_lumps);
      [vm_compute; reflexivity|vm_compute; reflexivity|vm_compute; discriminate
      |vm_compute; reflexivity|vm_compute; reflexivity|reflexivity].
  - apply (main_outcomes sample_env (str_of "extract-wad.py")
             (str_of "pak0.pak") [str_of "out"]
             (<[str_of "out" := []]> sample_files) sample_pak);
      try reflexivity.
    right. eexists _, _. split; [vm_compute; reflexivity|].
    split; [vm_compute; reflexivity|]. right.
    split; [vm_compute; discriminate|].
    eexists. split; [vm_compute; reflexivity|]. right.
    eexists. split; vm_compute; reflexivity.
  - apply (main_outcomes sample_env (str_of "extract-wad.py")
             (str_of "pak0.pak") [str_of "out"]
             {[ str_of "pak0.pak" := no_wad_pak ]} no_wad_pak);
      try reflexivity.
    split; [done|]. eexists. split; [vm_compute; reflexivity|].
    right. eexists. split; [vm_compute; reflexivity|].
    split; [vm_compute; discriminate|vm_compute; reflexivity].
Defined.

(** ** The files a run touches *)

Lemma lump_output_Some env output_dir palette item path png :
  lump_output env output_dir palette item = Some (path, png) <->
  exists name data img,
    item = (name, (TYP_QPIC, data)) /\
    qpic_to_image env data palette = Ok img /\
    path = path_join env output_dir (name ++ str_of ".png") /\
    save env img path = Ok png.
Proof.
  destruct item as [name [lump_type data]]. unfold lump_output. split.
  - case_decide as Hty; [subst lump_type|done].
    destruct (qpic_to_image env data palette) as [img|] eqn:Himg; [|done].
    simpl. destruct (save env img _) as [png'|] eqn:Hsave; [|done].
    intros [= <- <-]. by exists name, data, img.
  - intros (name' & data' & img & [= -> -> ->] & Himg & -> & Hsave).
    rewrite decide_True by done. rewrite Himg. simpl. by rewrite Hsave.
Qed.

Lemma elem_of_outputs env output_dir palette items path png :
  (path, png) ∈ lump_outputs env output_dir palette items <->
  exists name data img,
    (name, (TYP_QPIC, data)) ∈ items /\
    qpic_to_image env data palette = Ok img /\
    path = path_join env output_dir (name ++ str_of ".png") /\
    save env img path = Ok png.
Proof.
  unfold lump_outputs. rewrite list_elem_of_omap. split.
  - intros (item & Hin & Hout).
    apply lump_output_Some in Hout as (name & data & img & -> & ?).
    by exists name, data, img.
  - intros (name & data & img & Hin & Hrest).
    exists (name, (TYP_QPIC, data)). split; [done|].
    apply lump_output_Some. by exists name, data, img.
Qed.

Lemma dict_of_elem {V} (kvs : list (pystr * V)) k v :
  dict_of kvs !! k = Some v -> (k, v) ∈ kvs.
Proof.
  intros Hk. apply dict_of_lookup_Some in Hk as (i & Hi & _).
  apply list_elem_of_lookup. by exists i.
Qed.







(** The nested container missing, and a regular file where the output
    directory should be. *)
Example main_missing_wad :
  main sample_env sample_argv {[ str_of "pak0.pak" := no_wad_pak ]} = Exit 1 /\
  main sample_env sample_argv (<[str_of "out" := []]> sample_files)
  = Uncaught (OSError 17).
Proof. split; vm_compute; reflexivity. Qed.

(** ** Distinct output paths *)

Lemma dict_of_list_to_map {V} (kvs : list (pystr * V)) :
  dict_of kvs = list_to_map (reverse kvs).
Proof.
  induction kvs as [|kv kvs IH] using rev_ind; [done|].
  rewrite dict_of_snoc, reverse_snoc, IH. by destruct kv.
Qed.

Lemma NoDup_fst_reverse {V} (kvs : list (pystr * V)) :
  NoDup kvs.*1 -> NoDup (reverse kvs).*1.
Proof. intros Hnd. by rewrite fmap_reverse, reverse_Permutation. Qed.

Lemma dict_of_NoDup_lookup {V} (kvs : list (pystr * V)) k v :
  NoDup kvs.*1 -> (k, v) ∈ kvs -> dict_of kvs !! k = Some v.
Proof.
  intros Hnd Hin. rewrite dict_of_list_to_map.
  apply elem_of_list_to_map_1; [by apply NoDup_fst_reverse|].
  by rewrite reverse_Permutation.
Qed.

Lemma dict_of_NoDup_size {V} (kvs : list (pystr * V)) :
  NoDup kvs.*1 -> size (dict_of kvs) = length kvs.
Proof.
  intros Hnd. rewrite dict_of_list_to_map.
  rewrite map_size_list_to_map by (by apply NoDup_fst_reverse).
  apply length_reverse.
Qed.

Lemma NoDup_outputs env output_dir palette items :
  (forall n1 n2,
     n1 ∈ items.*1 -> n2 ∈ items.*1 ->
     path_join env output_dir (n1 ++ str_of ".png")
     = path_join env output_dir (n2 ++ str_of ".png") -> n1 = n2) ->
  NoDup items.*1 ->
  NoDup (lump_outputs env output_dir palette items).*1.
Proof.
  induction items as [|[name v] items IH]; intros Hinj Hnd.
  - constructor.
  - rewrite fmap_cons in Hnd. apply NoDup_cons in Hnd as [Hname Hnd].
    assert (NoDup (lump_outputs env output_dir palette items).*1) as IH'.
    { apply IH; [|done]. intros n1 n2 H1 H2. apply Hinj; by right. }
    rewrite outputs_cons.
    destruct (lump_output _ _ _ (name, v)) as [[path png]|] eqn:Hout; [|done].
    apply lump_output_Some in Hout as (name0 & data0 & _ & [= <- ->] & _ & Hp & _).
    rewrite fmap_cons. apply NoDup_cons. split; [|done].
    intros Hin. apply list_elem_of_fmap in Hin as ([path' png'] & Heq & Hin).
    simpl in Heq. subst path'.
    apply elem_of_outputs in Hin as (name' & data' & _ & Hin' & _ & Hpath' & _).
    rewrite Hp in Hpath'.
    assert (name' ∈ items.*1) as Hin''.
    { apply list_elem_of_fmap. by exists (name', (TYP_QPIC, data')). }
    apply Hinj in Hpath'; [|by left|by right]. by subst name'.
Qed.

(** X13. When joining with the output directory keeps the names of the
    records apart, then after a loop that reaches its end every bitmap
    record that decodes and saves has its encoded image in its own file,
    and a loop that starts with no files ends with as many files as it
    counts written. *)
Theorem convert_lumps_distinct_paths
    (env : Env) (output_dir : pystr) (palette : list rgba)
    (lumps : gmap pystr (Z * bytes)) (fs : gmap pystr bytes) (st : progress) :
  (forall n1 n2,
     is_Some (lumps !! n1) -> is_Some (lumps !! n2) ->
     path_join env output_dir (n1 ++ str_of ".png")
     = path_join env output_dir (n2 ++ str_of ".png") -> n1 = n2) ->
  convert_lumps env output_dir palette lumps fs = (st, None) ->
  (forall name data img png,
     lumps !! name = Some (TYP_QPIC, data) ->
     qpic_to_image env data palette = Ok img ->
     save env img (path_join env output_dir (name ++ str_of ".png")) = Ok png ->
     files st !! path_join env output_dir (name ++ str_of ".png") = Some png) /\
  (fs = ∅ -> count st = Z.of_nat (size (files st))).
Proof.
  intros Hinj Hrun.
  assert (NoDup (lump_outputs env output_dir palette (sorted_items lumps)).*1)
    as Hnd.
  { apply NoDup_outputs; [|apply sorted_items_NoDup].
    intros n1 n2 H1 H2. apply Hinj.
    - apply list_elem_of_fmap in H1 as ([n v] & -> & Hin).
      apply elem_of_sorted_items in Hin. by exists v.
    - apply list_elem_of_fmap in H2 as ([n v] & -> & Hin).
      apply elem_of_sorted_items in Hin. by exists v. }
  apply convert_lumps_end in Hrun as (Hc & _ & Hf). rewrite Hf, Hc. split.
  - intros name data img png Hin Himg Hsave.
    apply lookup_union_Some_l, dict_of_NoDup_lookup; [done|].
    apply elem_of_outputs. exists name, data, img.
    split; [by apply elem_of_sorted_items|done].
  - intros ->. rewrite (right_id_L ∅ (∪)).
    rewrite dict_of_NoDup_size by done. done.
Qed.

Lemma convert_lumps_distinct_paths_witness :
  let r := convert_lumps sample_env (str_of "out") sample_palette
             sample_lumps ∅ in
  count r.1 = Z.of_nat (size (files r.1)).
Proof.
  intros r.
  apply (convert_lumps_distinct_paths sample_env (str_of "out") sample_palette
           sample_lumps ∅ r.1); [| |reflexivity].
  - intros n1 n2 _ _ Hn. simpl in Hn. unfold sample_path_join in Hn.
    apply app_inv_head in Hn. apply app_inv_head in Hn.
    by apply app_inv_tail in Hn.
  - vm_compute. reflexivity.
Defined.

(** ** Lines that cannot be printed *)

Lemma convert_lump_total env output_dir palette st item st' :
  convert_lump env output_dir palette st item = (st', None) ->
  count st' + skipped st'
  = count st + skipped st + 1
    + (if saved_unreported env output_dir palette item then 1 else 0).
Proof.
  destruct item as [name [lump_type data]].
  unfold convert_lump, try_convert, saved_unreported, lump_output, lump_line,
    skip_lump.
  destruct (decide (lump_type ≠ TYP_QPIC)), (decide (lump_type = TYP_QPIC));
    try done.
  { intros [= <-]. simpl. lia. }
  destruct (qpic_to_image env data palette) as [img|err].
  - simpl. destruct (save env img _) as [png|err].
    + destruct (print env (Converted _ _ _ _)) as [e1|].
      * rewrite bool_decide_eq_true_2 by (by eexists).
        destruct (print env (Failed _ _)); [done|].
        intros [= <-]. simpl. lia.
      * rewrite bool_decide_eq_false_2 by (by intros [? [=]]).
        intros [= <-]. simpl. lia.
    + destruct (print env (Failed _ _)); [done|]. intros [= <-]. simpl. lia.
  - destruct (print env (Failed _ _)); [done|]. intros [= <-]. simpl. lia.
Qed.

Lemma convert_items_total env output_dir palette items : forall st st',
  convert_items env output_dir palette items st = (st', None) ->
  count st' + skipped st'
  = count st + skipped st + len items
    + len (filter (saved_unreported env output_dir palette) items).
Proof.
  induction items as [|item items IH]; intros st st'.
  - intros [= <-]. unfold len. simpl. lia.
  - rewrite convert_items_cons.
    destruct (convert_lump env output_dir palette st item) as [st1 [e|]] eqn:Hstep;
      [done|].
    intros Hrest. apply IH in Hrest. apply convert_lump_total in Hstep.
    rewrite filter_cons, len_cons.
    destruct (saved_unreported env output_dir palette item).
    + rewrite decide_True by exact I. rewrite len_cons. lia.
    + rewrite decide_False by (intros []). lia.
Qed.

(** X17. When the line of a saved record cannot be printed but the line
    that reports this can, the record is counted as written and as
    skipped, and its file stays.  A loop that reaches its end has
    counted as written the files it saved, and written plus skipped
    exceeds the number of records by the number of such records. *)
Theorem unprinted_line_counts_twice
    (env : Env) (output_dir : pystr) (palette : list rgba)
    (lumps : gmap pystr (Z * bytes)) (fs : gmap pystr bytes) :
  (forall st name data img png e,
     let out_path := path_join env output_dir (name ++ str_of ".png") in
     qpic_to_image env data palette = Ok img ->
     save env img out_path = Ok png ->
     print env (Converted name (img_width img) (img_height img) out_path)
     = Some e ->
     print env (Failed name e) = None ->
     convert_lump env output_dir palette st (name, (TYP_QPIC, data))
     = ({| count := count st + 1; skipped := skipped st + 1;
           files := <[out_path := png]> (files st) |}, None)) /\
  (forall st,
     convert_lumps env output_dir palette lumps fs = (st, None) ->
     let items := sorted_items lumps in
     count st = len (lump_outputs env output_dir palette items) /\
     count st + skipped st
     = Z.of_nat (size lumps)
       + len (filter (saved_unreported env output_dir palette) items)).
Proof.
  split.
  - intros st name data img png e out_path Himg Hsave Hline Hfailed.
    unfold convert_lump, try_convert. rewrite decide_False by (by intros []).
    rewrite Himg. fold out_path. by rewrite Hsave, Hline, Hfailed.
  - intros st Hrun items.
    pose proof (convert_lumps_end _ _ _ _ _ _ Hrun) as (Hc & _ & _).
    split; [done|]. unfold convert_lumps in Hrun.
    apply convert_items_total in Hrun. simpl in Hrun. rewrite Hrun.
    unfold len at 1. by rewrite sorted_items_length.
Qed.

Lemma unprinted_line_counts_twice_witness :
  let r := convert_lumps ascii_env [111; 252; 116] sample_table sample_lumps ∅ in
  let items := sorted_items sample_lumps in
  count r.1 = len (lump_outputs ascii_env [111; 252; 116] sample_table items) /\
  count r.1 + skipped r.1
  = Z.of_nat (size sample_lumps)
    + len (filter (saved_unreported ascii_env [111; 252; 116] sample_table)
             items).
Proof.
  intros r.
  apply (proj2 (unprinted_line_counts_twice ascii_env [111; 252; 116]
                  sample_table sample_lumps ∅) r.1).
  vm_compute. reflexivity.
Defined.

(** With an output directory whose name the stream cannot encode, each
    of the three bitmap records of the sample archive is written and
    counted twice: 3 written and 5 skipped for 5 records.  The summary
    line names the directory, so the run ends with the exception of
    [print]. *)
Example main_counts_twice :
  match main ascii_env
          [str_of "extract-wad.py"; str_of "pak0.pak"; [111; 252; 116]]
          sample_files with
  | Aborted e st => Some (e, count st, skipped st, size (files st))
  | _ => None
  end = Some (UnicodeEncodeError, 3, 5, 4%nat).
Proof. vm_compute. reflexivity. Qed.

(** X18. When a bitmap record fails to decode or to save and the line
    that reports it cannot be printed, the exception of [print] ends the
    loop there: the counts and the files are those of the records
    before, the record is not counted, and the records after it are not
    visited. *)
Theorem unprinted_failure_ends_loop
    (env : Env) (output_dir : pystr) (palette : list rgba)
    (before after : list (pystr * (Z * bytes))) (name : pystr) (data : bytes)
    (e e' : exn) (st st1 : progress) :
  (qpic_to_image env data palette = Raise e \/
   exists img,
     qpic_to_image env data palette = Ok img /\
     save env img (path_join env output_dir (name ++ str_of ".png"))
     = Raise e) ->
  print env (Failed name e) = Some e' ->
  convert_items env output_dir palette before st = (st1, None) ->
  convert_items env output_dir palette
    (before ++ (name, (TYP_QPIC, data)) :: after) st
  = (st1, Some e').
Proof.
  intros Hbad Hprint Hbefore.
  rewrite convert_items_app, Hbefore, convert_items_cons.
  unfold convert_lump, try_convert. rewrite decide_False by (by intros []).
  destruct Hbad as [->|(img & -> & Hsave)].
  - by rewrite Hprint.
  - simpl. by rewrite Hsave, Hprint.
Qed.

Lemma unprinted_failure_ends_loop_witness :
  convert_items ascii_env (str_of "out") sample_palette
    ([] ++ ([65533], (TYP_QPIC, truncated_qpic))
        :: [(str_of "sbar", (TYP_QPIC, sample_qpic))])
    {| count := 0; skipped := 0; files := ∅ |}
  = ({| count := 0; skipped := 0; files := ∅ |}, Some UnicodeEncodeError).
Proof.
  apply (unprinted_failure_ends_loop ascii_env (str_of "out") sample_palette
           [] [(str_of "sbar", (TYP_QPIC, sample_qpic))] [65533] truncated_qpic
           (ValueError (QpicTruncated 1 4)) UnicodeEncodeError).
  - left. vm_compute. reflexivity.
  - reflexivity.
  - reflexivity.
Defined.

(** The archive whose second record is truncated and has a name the
    stream cannot encode: the first record is written, then the run ends
    with the exception of [print]. *)
Example main_aborts_on_unprintable_name :
  match main ascii_env sample_argv {[ str_of "pak0.pak" := garbled_pak ]} with
  | Aborted e st => Some (e, count st, skipped st, size (files st))
  | _ => None
  end = Some (UnicodeEncodeError, 1, 0, 2%nat) /\
  summary (main sample_env sample_argv {[ str_of "pak0.pak" := garbled_pak ]})
  = Some (1, 1, 2%nat).
Proof. split; vm_compute; reflexivity. Qed.

(** ** Splitting the argument list *)

Lemma split_args_cons arg args commands current :
  split_args (arg :: args) commands current
  = if decide (arg = str_of "&&") then
      match current with
      | [] => split_args args commands current
      | _ :: _ => split_args args (commands ++ [current]) []
      end
    else split_args args commands (current ++ [arg]).
Proof. done. Qed.

Lemma split_args_commands args : forall commands current,
  flush (split_args args commands current)
  = commands ++ flush (split_args args [] current).
Proof.
  induction args as [|arg args IH]; intros commands current.
  - simpl. destruct current; simpl; [by rewrite app_nil_r|done].
  - rewrite !split_args_cons.
    destruct (decide (arg = str_of "&&")); [|apply IH].
    destruct current as [|c current]; [apply IH|].
    rewrite IH. rewrite (IH ([] ++ [c :: current])). by rewrite <- app_assoc.
Qed.

Lemma split_sep args current :
  flush (split_args (str_of "&&" :: args) [] current)
  = flush ([], current) ++ flush (split_args args [] []).
Proof.
  rewrite split_args_cons, decide_True by done.
  destruct current as [|c current]; [done|].
  by rewrite split_args_commands.
Qed.

Lemma split_word arg args current :
  arg ≠ str_of "&&" ->
  flush (split_args (arg :: args) [] current)
  = flush (split_args args [] (current ++ [arg])).
Proof. intros Harg. by rewrite split_args_cons, decide_False by done. Qed.

Lemma split_app_sep a b : forall current,
  flush (split_args (a ++ str_of "&&" :: b) [] current)
  = flush (split_args a [] current) ++ flush (split_args b [] []).
Proof.
  induction a as [|x a IH]; intros current.
  - rewrite app_nil_l, split_sep. done.
  - rewrite <- app_comm_cons.
    destruct (decide (x = str_of "&&")) as [->|Hx].
    + rewrite !split_sep, IH. by rewrite app_assoc.
    + rewrite !split_word by done. apply IH.
Qed.

Lemma split_plain args : forall current,
  str_of "&&" ∉ args ->
  flush (split_args args [] current) = flush ([], current ++ args).
Proof.
  induction args as [|x args IH]; intros current Hno.
  - by rewrite app_nil_r.
  - apply not_elem_of_cons in Hno as [Hx Hno].
    rewrite split_word by done. rewrite IH by done.
    by rewrite <- app_assoc.
Qed.

Lemma flush_current_ok current :
  str_of "&&" ∉ current ->
  Forall (fun cmd => cmd ≠ [] /\ str_of "&&" ∉ cmd) (flush ([], current)).
Proof.
  intros Hno. simpl. destruct current; [constructor|].
  constructor; [done|constructor].
Qed.

Lemma split_Forall args : forall current,
  str_of "&&" ∉ current ->
  Forall (fun cmd => cmd ≠ [] /\ str_of "&&" ∉ cmd)
    (flush (split_args args [] current)).
Proof.
  induction args as [|x args IH]; intros current Hno.
  - by apply flush_current_ok.
  - destruct (decide (x = str_of "&&")) as [->|Hx].
    + rewrite split_sep. apply Forall_app. split.
      * by apply flush_current_ok.
      * apply IH, not_elem_of_nil.
    + rewrite split_word by done. apply IH.
      rewrite elem_of_app, list_elem_of_singleton. by intros [?|?].
Qed.

Lemma concat_flush current : concat (flush ([], current)) = current.
Proof. simpl. destruct current; simpl; [done|]. by rewrite app_nil_r. Qed.

Lemma split_concat args : forall current,
  concat (flush (split_args args [] current))
  = current ++ filter (fun arg => arg ≠ str_of "&&") args.
Proof.
  induction args as [|x args IH]; intros current.
  - rewrite filter_nil, app_nil_r. apply concat_flush.
  - rewrite filter_cons. destruct (decide (x = str_of "&&")) as [->|Hx].
    + rewrite split_sep, concat_app, IH, concat_flush.
      by rewrite decide_False by (by intros ?).
    + rewrite split_word by done. rewrite IH, decide_True by done.
      by rewrite <- app_assoc.
Qed.

Lemma split_commands_app_sep a b :
  split_commands (a ++ str_of "&&" :: b) = split_commands a ++ split_commands b.
Proof. apply split_app_sep. Qed.

Lemma split_commands_plain cmd :
  cmd ≠ [] -> str_of "&&" ∉ cmd -> split_commands cmd = [cmd].
Proof.
  intros Hne Hno. unfold split_commands. rewrite split_plain by done.
  simpl. by destruct cmd.
Qed.

(** X14. The commands the script makes of its arguments are never empty
    and never hold an [&&]; put end to end they are the arguments
    without the [&&] tokens, in order; and commands that are not empty
    and hold no [&&], spelled with [&&] between them, are split into
    themselves. *)
Theorem split_commands_correct :
  (forall args,
     Forall (fun cmd => cmd ≠ [] /\ str_of "&&" ∉ cmd) (split_commands args)) /\
  (forall args,
     concat (split_commands args)
     = filter (fun arg => arg ≠ str_of "&&") args) /\
  (forall commands,
     Forall (fun cmd => cmd ≠ [] /\ str_of "&&" ∉ cmd) commands ->
     split_commands (join_commands commands) = commands).
Proof.
  split; [|split].
  - intros args. apply split_Forall, not_elem_of_nil.
  - intros args. unfold split_commands. by rewrite split_concat.
  - intros commands Hok. induction Hok as [|cmd rest [Hne Hno] Hrest IH]; [done|].
    destruct rest as [|cmd' rest].
    + simpl. by apply split_commands_plain.
    + change (join_commands (cmd :: cmd' :: rest))
        with (cmd ++ str_of "&&" :: join_commands (cmd' :: rest)).
      rewrite split_commands_app_sep, IH.
      by rewrite split_commands_plain.
Qed.

(** An argument list with stray separators: empty commands are dropped. *)
Example split_commands_stray :
  split_commands [str_of "&&"; str_of "a"; str_of "&&"; str_of "&&";
                  str_of "b"; str_of "c"; str_of "&&"]
  = [[str_of "a"]; [str_of "b"; str_of "c"]].
Proof. vm_compute. reflexivity. Qed.

(** ** Running the commands *)

Section PipelineFacts.
Context {World : Type}.
Context (run : list pystr -> World -> option Z * World).

Lemma run_commands_app c1 c2 w :
  run_commands run (c1 ++ c2) w
  = match run_commands run c1 w with
    | (Finished, w') => run_commands run c2 w'
    | other => other
    end.
Proof.
  revert w. induction c1 as [|cmd c1 IH]; intros w; simpl; [done|].
  destruct (run cmd w) as [[returncode|] w']; [|done].
  destruct (decide (returncode ≠ 0)); [done|apply IH].
Qed.

Lemma run_commands_SysExit commands : forall w code w',
  run_commands run commands w = (SysExit code, w') ->
  code ≠ 0 /\
  exists before cmd after wb,
    commands = before ++ cmd :: after /\
    run_commands run before w = (Finished, wb) /\
    run cmd wb = (Some code, w').
Proof.
  induction commands as [|cmd commands IH]; intros w code w'; simpl; [done|].
  destruct (run cmd w) as [[returncode|] w1] eqn:Hcmd; [|done].
  destruct (decide (returncode ≠ 0)) as [Hrc|Hrc].
  - intros [= <- <-]. split; [done|]. by exists [], cmd, commands, w.
  - apply dec_stable in Hrc. subst returncode. intros Hrest.
    apply IH in Hrest as (Hcode & before & cmd' & after & wb & -> & Hb & Hc).
    split; [done|]. exists (cmd :: before), cmd', after, wb.
    split; [done|]. split; [|done]. simpl. rewrite Hcmd.
    by rewrite decide_False by (by intros ?).
Qed.

Lemma run_commands_Finished commands : forall w w',
  run_commands run commands w = (Finished, w') ->
  forall before cmd after,
    commands = before ++ cmd :: after ->
    exists wb wc,
      run_commands run before w = (Finished, wb) /\
      run cmd wb = (Some 0, wc).
Proof.
  induction commands as [|cmd0 commands IH]; intros w w' Hfin before cmd after Heq.
  - by destruct before.
  - simpl in Hfin.
    destruct (run cmd0 w) as [[returncode|] w1] eqn:Hcmd; [|done].
    destruct (decide (returncode ≠ 0)) as [Hrc|Hrc]; [done|].
    apply dec_stable in Hrc. subst returncode.
    destruct before as [|b before]; simpl in Heq; injection Heq as <- ->.
    + by exists w, w1.
    + destruct (IH _ _ Hfin before cmd after eq_refl) as (wb & wc & Hb & Hc).
      exists wb, wc. split; [|done]. simpl. rewrite Hcmd.
      by rewrite decide_False by (by intros ?).
Qed.
End PipelineFacts.

(** X15. The script runs its commands in order and stops at the first
    that does not return 0: [a && b] does what [a] does and, when [a]
    reaches its end, what [b] does from there.  When the script exits
    with a code, this is the non-zero return code of a command before
    which the earlier commands all returned 0, and no later command
    has run; when it reaches its end, every command has returned 0. *)
Theorem pipeline_stops_at_first_failure {World : Type}
    (run : list pystr -> World -> option Z * World) :
  (forall prog a b w,
     pipeline run (prog :: a ++ str_of "&&" :: b) w
     = match pipeline run (prog :: a) w with
       | (Finished, w') => pipeline run (prog :: b) w'
       | other => other
       end) /\
  (forall argv w code w',
     pipeline run argv w = (SysExit code, w') ->
     code ≠ 0 /\
     exists before cmd after wb,
       split_commands (drop 1 argv) = before ++ cmd :: after /\
       run_commands run before w = (Finished, wb) /\
       run cmd wb = (Some code, w')) /\
  (forall argv w w',
     pipeline run argv w = (Finished, w') ->
     forall before cmd after,
       split_commands (drop 1 argv) = before ++ cmd :: after ->
       exists wb wc,
         run_commands run before w = (Finished, wb) /\
         run cmd wb = (Some 0, wc)).
Proof.
  split; [|split].
  - intros prog a b w. unfold pipeline.
    change (drop 1 (prog :: a ++ str_of "&&" :: b))
      with (a ++ str_of "&&" :: b).
    change (drop 1 (prog :: a)) with a. change (drop 1 (prog :: b)) with b.
    rewrite split_commands_app_sep. apply run_commands_app.
  - intros argv w code w'. apply run_commands_SysExit.
  - intros argv w w'. apply run_commands_Finished.
Qed.

Lemma pipeline_stops_at_first_failure_witness :
  pipeline sample_run
    [str_of "pipeline.py"; str_of "a"; str_of "&&"; str_of "bb";
     str_of "&&"; str_of "c"] []
  = (SysExit 1, [[str_of "a"]; [str_of "bb"]]) /\
  1 ≠ 0 /\
  exists before cmd after wb,
    split_commands
      (drop 1 [str_of "pipeline.py"; str_of "a"; str_of "&&"; str_of "bb";
               str_of "&&"; str_of "c"])
    = before ++ cmd :: after /\
    run_commands sample_run before [] = (Finished, wb) /\
    sample_run cmd wb = (Some 1, [[str_of "a"]; [str_of "bb"]]).
Proof.
  assert (pipeline sample_run
            [str_of "pipeline.py"; str_of "a"; str_of "&&"; str_of "bb";
             str_of "&&"; str_of "c"] []
          = (SysExit 1, [[str_of "a"]; [str_of "bb"]])) as Hrun
    by (vm_compute; reflexivity).
  split; [exact Hrun|].
  exact (proj1 (proj2 (pipeline_stops_at_first_failure sample_run))
           _ _ _ _ Hrun).
Defined.

Lemma run_commands_ext {World : Type}
    (run1 run2 : list pystr -> World -> option Z * World) commands :
  Forall (fun cmd => forall w, run1 cmd w = run2 cmd w) commands ->
  forall w, run_commands run1 commands w = run_commands run2 commands w.
Proof.
  induction 1 as [|cmd commands Hcmd _ IH]; intros w; simpl; [done|].
  rewrite Hcmd. destruct (run2 cmd w) as [[returncode|] w']; [|done].
  destruct (decide (returncode ≠ 0)); [done|apply IH].
Qed.

(** X16. The script never starts an empty command or one that holds an
    [&&]: what it does depends on [subprocess.run] only at commands that
    are not empty and hold no [&&].  With no arguments, or with nothing
    but [&&] tokens, it starts nothing and reaches its end. *)
Theorem pipeline_runs_proper_commands {World : Type}
    (run1 run2 : list pystr -> World -> option Z * World) :
  (forall cmd w, cmd ≠ [] -> str_of "&&" ∉ cmd -> run1 cmd w = run2 cmd w) ->
  (forall argv w, pipeline run1 argv w = pipeline run2 argv w) /\
  (forall prog (n : nat) w,
     pipeline run1 (prog :: replicate n (str_of "&&")) w = (Finished, w)).
Proof.
  intros Hsame. split.
  - intros argv w. unfold pipeline. apply run_commands_ext.
    eapply Forall_impl; [apply split_Forall, not_elem_of_nil|].
    intros cmd [Hne Hno] w'. by apply Hsame.
  - intros prog n w. unfold pipeline.
    change (drop 1 (prog :: replicate n (str_of "&&")))
      with (replicate n (str_of "&&")).
    assert (split_commands (replicate n (str_of "&&")) = []) as ->; [|done].
    induction n as [|n IH]; [done|].
    change (replicate (S n) (str_of "&&"))
      with ([] ++ str_of "&&" :: replicate n (str_of "&&")).
    by rewrite split_commands_app_sep, IH.
Qed.

Lemma pipeline_runs_proper_commands_witness :
  (forall argv w, pipeline sample_run argv w = pipeline strict_run argv w) /\
  (forall prog (n : nat) w,
     pipeline sample_run (prog :: replicate n (str_of "&&")) w = (Finished, w)).
Proof.
  apply (pipeline_runs_proper_commands sample_run strict_run).
  intros cmd w Hne _. destruct cmd; [by destruct Hne|reflexivity].
Defined.
